(** * A shallow embedding of the batch pipeline of the JSVMP detector

    The modules below follow src/src/tokenizer.ts and src/src/jsvmpDetector.ts:
    the token-bounded line splitter, the batch builder, the detection-result
    parser, the per-batch error handling and the result merger.

    Modelling conventions:
    - a JavaScript number read from JSON is a rational [Q] (every finite double
      is one); numbers that the code computes with [parseInt] are [jsint]
      (an integer or NaN);
    - a thrown [Error] is [Err message]; a returned value is [Ok v];
    - strings are Stdlib strings (bytes); every string the code inspects by
      position starts with ASCII text;
    - the external tokenizer is a function [encode_len] giving the length of
      [enc.encode(text)]; JSON.parse is an abstract function [JSON_parse]. *)

From Stdlib Require Import String Ascii List NArith ZArith QArith Lia Bool.
From Stdlib Require Import Sorting.Permutation Sorting.Sorted Lqa.
Import ListNotations.
Set Warnings "-register-all".
Open Scope string_scope.
Open Scope list_scope.

(** String concatenation ([a + b] on JS strings); [++] stays list append. *)
Infix "+++" := String.append (at level 60, right associativity).

(** ** Results of code that may throw *)

Inductive result (A : Type) : Type :=
| Ok (a : A)
| Err (msg : string).
Arguments Ok {A} a.
Arguments Err {A} msg.

Definition newline : string := String "010"%char EmptyString.

(** ** src/src/tokenizer.ts *)

Module Tokenizer.
Section WithEncoding.

(** [encode_len text] is [enc.encode(text).length] for the gpt-4o encoding. *)
Variable encode_len : string -> nat.

Definition countTokens (text : string) : nat := encode_len text.

(** The body of the [for (const line of lines)] loop of [splitByTokenLimit],
    with its mutable locals [batches], [currentBatch], [currentTokenCount]
    passed explicitly; the final flush is the [[]] case. *)
Fixpoint split_loop (maxTokens : Q) (lines : list string)
    (batches : list (list string)) (currentBatch : list string)
    (currentTokenCount : Q) : list (list string) :=
  match lines with
  | [] =>
      if Nat.ltb 0 (length currentBatch) then batches ++ [currentBatch] else batches
  | line :: rest =>
      let lineTokens := inject_Z (Z.of_nat (encode_len (line +++ newline))) in
      if negb (Qle_bool lineTokens maxTokens) then
        (* a single oversized line goes in its own batch, after flushing *)
        let '(batches', currentBatch', currentTokenCount') :=
          if Nat.ltb 0 (length currentBatch)
          then (batches ++ [currentBatch], [], 0)
          else (batches, currentBatch, currentTokenCount) in
        split_loop maxTokens rest (batches' ++ [[line]]) currentBatch' currentTokenCount'
      else
        let '(batches', currentBatch', currentTokenCount') :=
          if negb (Qle_bool (currentTokenCount + lineTokens) maxTokens)
             && Nat.ltb 0 (length currentBatch)
          then (batches ++ [currentBatch], [], 0)
          else (batches, currentBatch, currentTokenCount) in
        split_loop maxTokens rest batches' (currentBatch' ++ [line])
          (currentTokenCount' + lineTokens)
  end.

Definition splitByTokenLimit (lines : list string) (maxTokens : Q)
  : result (list (list string)) :=
  if Nat.eqb (length lines) 0 then Ok []
  else if Qle_bool maxTokens 0 then Err "maxTokens must be a positive number"
  else Ok (split_loop maxTokens lines [] [] 0).

End WithEncoding.
End Tokenizer.

(** ** String and number helpers of the JavaScript runtime *)

Module JS.

(** Integers produced by [parseInt]: an integer or NaN. *)
Inductive jsint : Type :=
| JSInt (z : Z)
| JSNaN.

Definition digit_char (d : N) : ascii := ascii_of_N (48 + d).

Fixpoint N_to_string_aux (fuel : nat) (n : N) (acc : string) : string :=
  match fuel with
  | O => acc
  | S fuel' =>
      let acc' := String (digit_char (N.modulo n 10)) acc in
      if N.ltb n 10 then acc' else N_to_string_aux fuel' (N.div n 10) acc'
  end.

(** [String(n)] for a non-negative integer. *)
Definition N_to_string (n : N) : string := N_to_string_aux (S (N.size_nat n)) n "".

Definition Z_to_string (z : Z) : string :=
  match z with
  | Zneg p => "-" +++ N_to_string (Npos p)
  | _ => N_to_string (Z.to_N z)
  end.

Definition nat_to_string (n : nat) : string := N_to_string (N.of_nat n).

Definition jsint_to_string (v : jsint) : string :=
  match v with
  | JSInt z => Z_to_string z
  | JSNaN => "NaN"
  end.

Fixpoint spaces (n : nat) : string :=
  match n with
  | O => ""
  | S n' => String " "%char (spaces n')
  end.

(** [s.padStart(w, ' ')] and [s.padEnd(w, ' ')]. *)
Definition padStart (w : nat) (s : string) : string :=
  spaces (w - String.length s) +++ s.

Definition padEnd (w : nat) (s : string) : string :=
  s +++ spaces (w - String.length s).

(** The ASCII part of the white space removed by [String.prototype.trim]. *)
Definition is_ws (c : ascii) : bool :=
  let n := nat_of_ascii c in
  Nat.eqb n 32 || (Nat.leb 9 n && Nat.leb n 13).

Fixpoint drop_ws (l : list ascii) : list ascii :=
  match l with
  | c :: l' => if is_ws c then drop_ws l' else l
  | [] => []
  end.

Definition trimStart (s : string) : string :=
  string_of_list_ascii (drop_ws (list_ascii_of_string s)).

Definition trim (s : string) : string :=
  string_of_list_ascii
    (rev (drop_ws (rev (drop_ws (list_ascii_of_string s))))).

Definition digit_value (c : ascii) : option Z :=
  let n := nat_of_ascii c in
  if Nat.leb 48 n && Nat.leb n 57 then Some (Z.of_nat (n - 48)) else None.

(** The longest prefix of decimal digits, as (number of digits, value). *)
Fixpoint digits_prefix (s : string) (count : nat) (acc : Z) : nat * Z :=
  match s with
  | String c s' =>
      match digit_value c with
      | Some d => digits_prefix s' (S count) (10 * acc + d)
      | None => (count, acc)
      end
  | EmptyString => (count, acc)
  end.

(** [parseInt(s, 10)]: leading white space, an optional sign, then the
    longest run of decimal digits; NaN when there is no digit. *)
Definition parseInt10 (s : string) : jsint :=
  let s := trimStart s in
  let '(sign, rest) :=
    match s with
    | String "-"%char r => ((-1)%Z, r)
    | String "+"%char r => (1%Z, r)
    | _ => (1%Z, s)
    end in
  match digits_prefix rest 0 0 with
  | (O, _) => JSNaN
  | (_, v) => JSInt (sign * v)
  end.

(** [lines.join(sep)]. *)
Fixpoint join (sep : string) (l : list string) : string :=
  match l with
  | [] => ""
  | [x] => x
  | x :: l' => x +++ sep +++ join sep l'
  end.

(** Does [needle] occur in [s]? *)
Fixpoint contains (needle s : string) : bool :=
  String.prefix needle s ||
  match s with
  | String _ s' => contains needle s'
  | EmptyString => false
  end.

End JS.
Import JS.

(** ** src/src/jsvmpDetector.ts: formatted lines and batches *)

Module Batching.

(** [formatCodeLine(lineNumber, sourcePos, code)]:
    ["LineNo SourceLoc Code"], the line number padded to 5 columns. *)
Definition formatCodeLine (lineNumber : Z) (sourcePos code : string) : string :=
  let lineNumStr := padStart 5 (Z_to_string lineNumber) in
  let srcPosPadded :=
    if String.eqb sourcePos "" then "          " else padEnd 10 sourcePos in
  lineNumStr +++ " " +++ srcPosPadded +++ " " +++ code.

(** [extractLineNumber(formattedLine)]. *)
Definition extractLineNumber (formattedLine : string) : jsint :=
  let lineNumStr := trim (substring 0 5 formattedLine) in
  parseInt10 lineNumStr.

Record BatchInfo : Type := mkBatchInfo {
  startLine : jsint;
  endLine : jsint;
  content : string;
  tokenCount : nat
}.

Section WithEncoding.
Variable encode_len : string -> nat.

(** The body of the [for (const batchLines of lineBatches)] loop. *)
Fixpoint batches_of (lineBatches : list (list string)) : list BatchInfo :=
  match lineBatches with
  | [] => []
  | [] :: rest => batches_of rest
  | (first :: _) as batchLines :: rest =>
      let startLine := extractLineNumber first in
      let endLine := extractLineNumber (last batchLines first) in
      let content := join newline batchLines in
      let tokenCount := Tokenizer.countTokens encode_len content in
      mkBatchInfo startLine endLine content tokenCount :: batches_of rest
  end.

(** [createBatches(formattedLines, maxTokensPerBatch)]. *)
Definition createBatches (formattedLines : list string) (maxTokensPerBatch : Q)
  : result (list BatchInfo) :=
  if Nat.eqb (length formattedLines) 0 then Ok []
  else
    match Tokenizer.splitByTokenLimit encode_len formattedLines maxTokensPerBatch with
    | Err e => Err e
    | Ok lineBatches => Ok (batches_of lineBatches)
    end.

End WithEncoding.

(** The formatted lines of an [n]-line file with no source map whose every
    line of code is [code]: [formatCodeLine(k, '', code)] for k = 1..n. *)
Definition file_lines (n : positive) (code : string) : list string :=
  Pos.peano_rect (fun _ => list string) [formatCodeLine 1 "" code]
    (fun p acc => acc ++ [formatCodeLine (Zpos (Pos.succ p)) "" code]) n.

End Batching.

(** ** JSON values, as JSON.parse returns them *)

Module Json.

Inductive json : Type :=
| JNull
| JBool (b : bool)
| JNum (q : Q)
| JStr (s : string)
| JArr (items : list json)
| JObj (fields : list (string * json)).

Fixpoint assoc (k : string) (fields : list (string * json)) : option json :=
  match fields with
  | [] => None
  | (k', v) :: fields' => if String.eqb k k' then Some v else assoc k fields'
  end.

(** [obj[k]]: [None] is [undefined]; arrays and primitives carry none of the
    property names the parser reads. *)
Definition get (v : json) (k : string) : option json :=
  match v with
  | JObj fields => assoc k fields
  | _ => None
  end.

(** [v && typeof v === 'object'] (arrays are objects, [null] is falsy). *)
Definition is_object (v : option json) : bool :=
  match v with
  | Some (JObj _) | Some (JArr _) => true
  | _ => false
  end.

(** [typeof v === 'number' ? v : null]. *)
Definition as_number (v : option json) : option Q :=
  match v with
  | Some (JNum q) => Some q
  | _ => None
  end.

(** [typeof v === 'string' ? v : null]. *)
Definition as_string (v : option json) : option string :=
  match v with
  | Some (JStr s) => Some s
  | _ => None
  end.

Definition string_or (d : string) (v : option json) : string :=
  match as_string v with
  | Some s => s
  | None => d
  end.

(** [a ?? b]. *)
Definition nullish (a b : option json) : option json :=
  match a with
  | None | Some JNull => b
  | Some _ => a
  end.

End Json.
Import Json.

(** ** The data model of src/src/jsvmpDetector.ts *)

Inductive DetectionType : Type :=
| IfElseDispatcher
| SwitchDispatcher
| InstructionArray
| StackOperation.

Inductive ConfidenceLevel : Type :=
| ultra_high
| high
| medium
| low.

Definition VALID_DETECTION_TYPES : list (string * DetectionType) :=
  [("If-Else Dispatcher", IfElseDispatcher);
   ("Switch Dispatcher", SwitchDispatcher);
   ("Instruction Array", InstructionArray)].

Definition VALID_CONFIDENCE_LEVELS : list (string * ConfidenceLevel) :=
  [("ultra_high", ultra_high); ("high", high); ("medium", medium); ("low", low)].

Fixpoint lookup_enum {A} (s : string) (valid : list (string * A)) : option A :=
  match valid with
  | [] => None
  | (name, v) :: valid' => if String.eqb s name then Some v else lookup_enum s valid'
  end.

(** [isValidDetectionType] / [isValidConfidenceLevel], returning the
    narrowed value. *)
Definition isValidDetectionType (s : string) : option DetectionType :=
  lookup_enum s VALID_DETECTION_TYPES.
Definition isValidConfidenceLevel (s : string) : option ConfidenceLevel :=
  lookup_enum s VALID_CONFIDENCE_LEVELS.

Module VMComponentVariable.
Record t : Type := mk {
  variable_name : option string;
  line_number : option Q;
  source_line : option Q;
  source_column : option Q;
  confidence : ConfidenceLevel;
  reasoning : string
}.
End VMComponentVariable.

Module LoopEntryInjection.
Record t : Type := mk {
  line_number : Q;
  source_line : option Q;
  source_column : option Q;
  description : string
}.
End LoopEntryInjection.

Module BreakpointInjection.
Record t : Type := mk {
  line_number : Q;
  source_line : option Q;
  source_column : option Q;
  opcode_read_pattern : option string;
  description : string
}.
End BreakpointInjection.

Module VMComponents.
Record t : Type := mk {
  instruction_pointer : VMComponentVariable.t;
  stack_pointer : VMComponentVariable.t;
  virtual_stack : VMComponentVariable.t;
  bytecode_array : VMComponentVariable.t;
  loop_entry : option LoopEntryInjection.t;
  breakpoint : option BreakpointInjection.t
}.
End VMComponents.

Module DebuggingEntryPoint.
Record t : Type := mk {
  line_number : Q;
  description : string
}.
End DebuggingEntryPoint.

Module GlobalBytecodeInfo.
Record t : Type := mk {
  variable_name : option string;
  definition_line : option Q;
  source_line : option Q;
  source_column : option Q;
  description : string
}.
End GlobalBytecodeInfo.

(** [end] is a keyword of Rocq: the field [end] is [end_]. *)
Module DetectionRegion.
Record t : Type := mk {
  start : Q;
  end_ : Q;
  type : DetectionType;
  confidence : ConfidenceLevel;
  description : string;
  vm_components : option VMComponents.t;
  debugging_entry_point : option DebuggingEntryPoint.t
}.
End DetectionRegion.

(** [summary: string | DetectionSummary]. *)
Inductive Summary : Type :=
| SummaryString (s : string)
| SummaryObject (overall_description debugging_recommendation : string).

Module DetectionResult.
Record t : Type := mk {
  summary : Summary;
  global_bytecode : option GlobalBytecodeInfo.t;
  regions : list DetectionRegion.t
}.
End DetectionResult.

(** ** src/src/jsvmpDetector.ts: parseDetectionResult and its helpers *)

Module Parser.

Definition dq : string := String "034"%char EmptyString.

Definition invalid : string := "LLM 响应格式无效，".

(** [arr.join(', ')] of the names of an enumeration. *)
Definition enum_names {A} (valid : list (string * A)) : string :=
  join ", " (map fst valid).

(** [parseVMComponentVariable(obj, fieldName)]. *)
Definition parseVMComponentVariable (obj : json) (fieldName : string)
  : option VMComponentVariable.t :=
  let component := get obj fieldName in
  match component with
  | Some c =>
      if negb (is_object component) then None else
      match as_string (get c "confidence") with
      | None => None
      | Some conf =>
          match isValidConfidenceLevel conf with
          | None => None
          | Some confidence =>
              Some {| VMComponentVariable.variable_name := as_string (get c "variable_name");
                      VMComponentVariable.line_number := as_number (get c "line_number");
                      VMComponentVariable.source_line := as_number (get c "source_line");
                      VMComponentVariable.source_column := as_number (get c "source_column");
                      VMComponentVariable.confidence := confidence;
                      VMComponentVariable.reasoning := string_or "" (get c "reasoning") |}
          end
      end
  | None => None
  end.

Definition unidentified : VMComponentVariable.t :=
  {| VMComponentVariable.variable_name := None;
     VMComponentVariable.line_number := None;
     VMComponentVariable.source_line := None;
     VMComponentVariable.source_column := None;
     VMComponentVariable.confidence := low;
     VMComponentVariable.reasoning := "" |}.

Definition or_unidentified (v : option VMComponentVariable.t) : VMComponentVariable.t :=
  match v with Some x => x | None => unidentified end.

(** [parseVMComponents(obj)]. *)
Definition parseVMComponents (obj : json) : option VMComponents.t :=
  let vmComponents := get obj "vm_components" in
  match vmComponents with
  | Some vm =>
      if negb (is_object vmComponents) then None else
      let ip := parseVMComponentVariable vm "instruction_pointer" in
      let sp := parseVMComponentVariable vm "stack_pointer" in
      let stack := parseVMComponentVariable vm "virtual_stack" in
      let bytecode := parseVMComponentVariable vm "bytecode_array" in
      let le := get vm "loop_entry" in
      let loopEntry :=
        match le with
        | Some l =>
            if negb (is_object le) then None else
            match as_number (get l "line_number") with
            | Some lineNumber =>
                Some {| LoopEntryInjection.line_number := lineNumber;
                        LoopEntryInjection.source_line := as_number (get l "source_line");
                        LoopEntryInjection.source_column := as_number (get l "source_column");
                        LoopEntryInjection.description := string_or "" (get l "description") |}
            | None => None
            end
        | None => None
        end in
      let bp := get vm "breakpoint" in
      let breakpointInjection :=
        match bp with
        | Some b =>
            if negb (is_object bp) then None else
            match as_number (get b "line_number") with
            | Some lineNumber =>
                Some {| BreakpointInjection.line_number := lineNumber;
                        BreakpointInjection.source_line := as_number (get b "source_line");
                        BreakpointInjection.source_column := as_number (get b "source_column");
                        BreakpointInjection.opcode_read_pattern :=
                          as_string (get b "opcode_read_pattern");
                        BreakpointInjection.description := string_or "" (get b "description") |}
            | None => None
            end
        | None => None
        end in
      match ip, sp, stack, bytecode with
      | None, None, None, None => None
      | _, _, _, _ =>
          Some {| VMComponents.instruction_pointer := or_unidentified ip;
                  VMComponents.stack_pointer := or_unidentified sp;
                  VMComponents.virtual_stack := or_unidentified stack;
                  VMComponents.bytecode_array := or_unidentified bytecode;
                  VMComponents.loop_entry := loopEntry;
                  VMComponents.breakpoint := breakpointInjection |}
      end
  | None => None
  end.

(** [parseDebuggingEntryPoint(obj)]. *)
Definition parseDebuggingEntryPoint (obj : json) : option DebuggingEntryPoint.t :=
  let entryPoint := get obj "debugging_entry_point" in
  match entryPoint with
  | Some e =>
      if negb (is_object entryPoint) then None else
      match as_number (get e "line_number") with
      | Some lineNumber =>
          Some {| DebuggingEntryPoint.line_number := lineNumber;
                  DebuggingEntryPoint.description := string_or "" (get e "description") |}
      | None => None
      end
  | None => None
  end.

(** [parseGlobalBytecode(obj)]. *)
Definition parseGlobalBytecode (obj : json) : option GlobalBytecodeInfo.t :=
  let globalBytecode := get obj "global_bytecode" in
  match globalBytecode with
  | Some g =>
      if negb (is_object globalBytecode) then None else
      Some {| GlobalBytecodeInfo.variable_name := as_string (get g "variable_name");
              GlobalBytecodeInfo.definition_line := as_number (get g "definition_line");
              GlobalBytecodeInfo.source_line := as_number (get g "source_line");
              GlobalBytecodeInfo.source_column := as_number (get g "source_column");
              GlobalBytecodeInfo.description := string_or "" (get g "description") |}
  | None => None
  end.

Definition region_tag (i : nat) : string := "regions[" +++ nat_to_string i +++ "]".

(** One iteration of the region validation loop of [parseDetectionResult],
    for [region = obj.regions[i]]. *)
Definition parseRegion (i : nat) (region : json) : result DetectionRegion.t :=
  match region with
  | JNull | JBool _ | JNum _ | JStr _ =>
      Err (invalid +++ region_tag i +++ " 不是对象")
  | JObj _ | JArr _ =>
      let startLine := nullish (get region "start_line") (get region "start") in
      let endLine := nullish (get region "end_line") (get region "end") in
      match as_number startLine with
      | None => Err (invalid +++ region_tag i +++ " 缺少必需字段: start_line 或 start")
      | Some startLine =>
      match as_number endLine with
      | None => Err (invalid +++ region_tag i +++ " 缺少必需字段: end_line 或 end")
      | Some endLine =>
      match as_string (get region "type") with
      | None => Err (invalid +++ region_tag i +++ " 缺少必需字段: type")
      | Some ty =>
      match as_string (get region "confidence") with
      | None => Err (invalid +++ region_tag i +++ " 缺少必需字段: confidence")
      | Some conf =>
      match as_string (get region "description") with
      | None => Err (invalid +++ region_tag i +++ " 缺少必需字段: description")
      | Some description =>
      match isValidDetectionType ty with
      | None =>
          Err (invalid +++ region_tag i +++ ".type 值无效: " +++ dq +++ ty +++ dq +++
               ". " +++ "有效值: " +++ enum_names VALID_DETECTION_TYPES)
      | Some type =>
      match isValidConfidenceLevel conf with
      | None =>
          Err (invalid +++ region_tag i +++ ".confidence 值无效: " +++ dq +++ conf +++ dq +++
               ". " +++ "有效值: " +++ enum_names VALID_CONFIDENCE_LEVELS)
      | Some confidence =>
          Ok {| DetectionRegion.start := startLine;
                DetectionRegion.end_ := endLine;
                DetectionRegion.type := type;
                DetectionRegion.confidence := confidence;
                DetectionRegion.description := description;
                DetectionRegion.vm_components := parseVMComponents region;
                DetectionRegion.debugging_entry_point := parseDebuggingEntryPoint region |}
      end end end end end end end
  end.

(** The loop [for (let i = 0; i < obj.regions.length; i++)], pushing onto
    [validatedRegions] and throwing at the first invalid region. *)
Fixpoint parseRegions (i : nat) (regions : list json) : result (list DetectionRegion.t) :=
  match regions with
  | [] => Ok []
  | region :: rest =>
      match parseRegion i region with
      | Err e => Err e
      | Ok r =>
          match parseRegions (S i) rest with
          | Err e => Err e
          | Ok rs => Ok (r :: rs)
          end
      end
  end.

(** [parseDetectionResult] after its [JSON.parse] step. *)
Definition parseParsed (parsed : json) : result DetectionResult.t :=
  match parsed with
  | JNull | JBool _ | JNum _ | JStr _ => Err (invalid +++ "期望对象类型")
  | JObj _ | JArr _ =>
      let summaryField := get parsed "summary" in
      let summary :=
        match summaryField with
        | Some (JStr s) => Ok (SummaryString s)
        | Some ((JObj _ | JArr _) as summaryObj) =>
            match as_string (get summaryObj "overall_description"),
                  as_string (get summaryObj "debugging_recommendation") with
            | Some d, Some r => Ok (SummaryObject d r)
            | _, _ => Err (invalid +++ "summary 对象缺少必需字段")
            end
        | _ => Err (invalid +++ "缺少必需字段: summary")
        end in
      match summary with
      | Err e => Err e
      | Ok summary =>
          match get parsed "regions" with
          | Some (JArr regions) =>
              match parseRegions 0 regions with
              | Err e => Err e
              | Ok validatedRegions =>
                  Ok {| DetectionResult.summary := summary;
                        DetectionResult.global_bytecode := parseGlobalBytecode parsed;
                        DetectionResult.regions := validatedRegions |}
              end
          | _ => Err (invalid +++ "缺少必需字段: regions")
          end
      end
  end.

Section WithJsonParse.
(** [JSON.parse(text)]: a value, or the message of the [SyntaxError]. *)
Variable JSON_parse : string -> result json.

(** [parseDetectionResult(jsonString)]. *)
Definition parseDetectionResult (jsonString : string) : result DetectionResult.t :=
  match JSON_parse jsonString with
  | Err e => Err ("无法解析 LLM 响应: " +++ e)
  | Ok parsed => parseParsed parsed
  end.

End WithJsonParse.

End Parser.

(** ** The parser's failure cases, as the specification words them

    These predicates follow the claims about [parseDetectionResult] (which
    inputs are malformed, and what an error message must name); they are
    compared with [Parser.parseParsed] in the theorems. *)

Module ParserSpec.

Definition is_object_value (v : json) : Prop :=
  match v with
  | JObj _ | JArr _ => True
  | _ => False
  end.

(** [summary] missing, or neither a string nor an object with both string
    fields. *)
Definition summary_bad (v : json) : Prop :=
  match get v "summary" with
  | Some (JStr _) => False
  | Some ((JObj _ | JArr _) as so) =>
      as_string (get so "overall_description") = None \/
      as_string (get so "debugging_recommendation") = None
  | _ => True
  end.

Definition regions_bad (v : json) : Prop :=
  match get v "regions" with
  | Some (JArr _) => False
  | _ => True
  end.

Definition start_bad (r : json) : Prop :=
  as_number (nullish (get r "start_line") (get r "start")) = None.

Definition end_bad (r : json) : Prop :=
  as_number (nullish (get r "end_line") (get r "end")) = None.

Definition field_not_string (r : json) (k : string) : Prop :=
  as_string (get r k) = None.

Definition type_invalid (r : json) : Prop :=
  exists ty, as_string (get r "type") = Some ty /\ isValidDetectionType ty = None.

Definition confidence_invalid (r : json) : Prop :=
  exists c, as_string (get r "confidence") = Some c /\ isValidConfidenceLevel c = None.

Definition region_bad (r : json) : Prop :=
  ~ is_object_value r \/ start_bad r \/ end_bad r \/
  field_not_string r "type" \/ field_not_string r "confidence" \/
  field_not_string r "description" \/ type_invalid r \/ confidence_invalid r.

(** The message [m] names region [i] and one of its offences, with the
    accepted values for an enumeration. *)
Definition names_region_offence (i : nat) (r : json) (m : string) : Prop :=
  contains (Parser.region_tag i) m = true /\
  (~ is_object_value r
   \/ (start_bad r /\ contains "start" m = true)
   \/ (end_bad r /\ contains "end" m = true)
   \/ (field_not_string r "type" /\ contains "type" m = true)
   \/ (field_not_string r "confidence" /\ contains "confidence" m = true)
   \/ (field_not_string r "description" /\ contains "description" m = true)
   \/ (type_invalid r /\ contains "type" m = true /\
       contains "If-Else Dispatcher, Switch Dispatcher, Instruction Array" m = true)
   \/ (confidence_invalid r /\ contains "confidence" m = true /\
       contains "ultra_high, high, medium, low" m = true)).

Definition names_offence (v : json) (m : string) : Prop :=
  (summary_bad v /\ contains "summary" m = true) \/
  (regions_bad v /\ contains "regions" m = true) \/
  (exists rs i r, get v "regions" = Some (JArr rs) /\ nth_error rs i = Some r /\
                  names_region_offence i r m).

(** A region's bounds are carried over as the numbers the response gives. *)
Definition bounds_kept (r : json) (x : DetectionRegion.t) : Prop :=
  as_number (nullish (get r "start_line") (get r "start")) = Some (DetectionRegion.start x) /\
  as_number (nullish (get r "end_line") (get r "end")) = Some (DetectionRegion.end_ x).

(** The two spellings of a region's bounds. *)
Definition bound_keys : list string := ["start_line"; "end_line"; "start"; "end"].

Definition bound_free (fields : list (string * json)) : Prop :=
  Forall (fun kv => existsb (String.eqb (fst kv)) bound_keys = false) fields.

Definition legacy_region (a b : json) (fields : list (string * json)) : json :=
  JObj (("start", a) :: ("end", b) :: fields).

Definition current_region (a b : json) (fields : list (string * json)) : json :=
  JObj (("start_line", a) :: ("end_line", b) :: fields).

Definition both_region (a b a' b' : json) (fields : list (string * json)) : json :=
  JObj (("start_line", a) :: ("end_line", b) :: ("start", a') :: ("end", b') :: fields).

(** A response whose [regions] array holds [r] between [pre] and [post]. *)
Definition with_region (top : list (string * json)) (pre post : list json) (r : json) : json :=
  JObj (("regions", JArr (pre ++ r :: post)) :: top).

End ParserSpec.

(** ** src/src/jsvmpDetector.ts: mergeDetectionResults *)

Module Merger.

(** [confidenceOrder]. *)
Definition confidenceOrder (c : ConfidenceLevel) : Z :=
  match c with
  | ultra_high => 4
  | high => 3
  | medium => 2
  | low => 1
  end.

(** [region.start <= existing.end && region.end >= existing.start]. *)
Definition overlaps (region existing : DetectionRegion.t) : bool :=
  Qle_bool (DetectionRegion.start region) (DetectionRegion.end_ existing) &&
  Qle_bool (DetectionRegion.start existing) (DetectionRegion.end_ region).

(** [arr.sort((a, b) => a.start - b.start)]: Array.prototype.sort is stable
    and the comparator is consistent on finite numbers, so its result is the
    stable sort by [start], computed here by insertion. *)
Fixpoint insert_by_start (x : DetectionRegion.t) (l : list DetectionRegion.t)
  : list DetectionRegion.t :=
  match l with
  | [] => [x]
  | y :: l' =>
      if Qle_bool (DetectionRegion.start y) (DetectionRegion.start x)
      then y :: insert_by_start x l'
      else x :: l
  end.

Definition sort_by_start (l : list DetectionRegion.t) : list DetectionRegion.t :=
  fold_left (fun acc x => insert_by_start x acc) l [].

(** The inner [for] loop: the first accepted region overlapping [region]. *)
Fixpoint find_overlap (region : DetectionRegion.t) (deduplicated : list DetectionRegion.t)
    (i : nat) : option (nat * DetectionRegion.t) :=
  match deduplicated with
  | [] => None
  | existing :: rest =>
      if overlaps region existing then Some (i, existing)
      else find_overlap region rest (S i)
  end.

(** [arr[i] = v] for an index inside the array. *)
Fixpoint replace_nth {A} (i : nat) (v : A) (l : list A) : list A :=
  match l, i with
  | [], _ => []
  | _ :: l', O => v :: l'
  | x :: l', S i' => x :: replace_nth i' v l'
  end.

(** One iteration of the outer dedup loop. *)
Definition dedup_step (deduplicated : list DetectionRegion.t) (region : DetectionRegion.t)
  : list DetectionRegion.t :=
  match find_overlap region deduplicated 0 with
  | None => deduplicated ++ [region]
  | Some (overlappingIndex, existing) =>
      if Z.gtb (confidenceOrder (DetectionRegion.confidence region))
               (confidenceOrder (DetectionRegion.confidence existing))
      then replace_nth overlappingIndex region deduplicated
      else deduplicated
  end.

Definition deduplicate (allRegions : list DetectionRegion.t) : list DetectionRegion.t :=
  fold_left dedup_step allRegions [].

Definition summary_text (s : Summary) : string :=
  match s with
  | SummaryString t => t
  | SummaryObject d _ => d
  end.

Fixpoint summaryParts (i : nat) (results : list DetectionResult.t) : list string :=
  match results with
  | [] => []
  | r :: rest =>
      ("[Batch " +++ nat_to_string (S i) +++ "] " +++ summary_text (DetectionResult.summary r))
        :: summaryParts (S i) rest
  end.

(** [result.global_bytecode && result.global_bytecode.variable_name]. *)
Definition named_bytecode (g : option GlobalBytecodeInfo.t) : bool :=
  match g with
  | Some gb =>
      match GlobalBytecodeInfo.variable_name gb with
      | Some name => negb (String.eqb name "")
      | None => false
      end
  | None => false
  end.

Fixpoint first_global_bytecode (results : list DetectionResult.t)
  : option GlobalBytecodeInfo.t :=
  match results with
  | [] => None
  | r :: rest =>
      if named_bytecode (DetectionResult.global_bytecode r)
      then DetectionResult.global_bytecode r
      else first_global_bytecode rest
  end.

Definition fallback_recommendation : string := "请参考各批次的分析结果进行调试。".

(** [mergeDetectionResults(results)]. *)
Definition mergeDetectionResults (results : list DetectionResult.t) : DetectionResult.t :=
  match results with
  | [] => {| DetectionResult.summary := SummaryString "";
             DetectionResult.global_bytecode := None;
             DetectionResult.regions := [] |}
  | [r] => {| DetectionResult.summary := DetectionResult.summary r;
              DetectionResult.global_bytecode := DetectionResult.global_bytecode r;
              DetectionResult.regions := sort_by_start (DetectionResult.regions r) |}
  | r0 :: _ =>
      let lastSummary := DetectionResult.summary (last results r0) in
      let combinedSummary :=
        SummaryObject (join newline (summaryParts 0 results))
          (match lastSummary with
           | SummaryString _ => fallback_recommendation
           | SummaryObject _ rec => rec
           end) in
      let allRegions := concat (map DetectionResult.regions results) in
      {| DetectionResult.summary := combinedSummary;
         DetectionResult.global_bytecode := first_global_bytecode results;
         DetectionResult.regions := deduplicate (sort_by_start allRegions) |}
  end.

End Merger.

(** ** src/src/jsvmpDetector.ts: processBatch, processBatchesWithErrorHandling *)

Module Processor.
Import Batching.

Section WithClient.
(** The LLM client, with whatever state it keeps between calls:
    [client.analyzeJSVMP(content)] resolves to a response or rejects with a
    message. *)
Variable ClientState : Type.
Variable analyzeJSVMP : ClientState -> string -> ClientState * result string.
Variable JSON_parse : string -> result json.

(** [processBatch(client, batch)]. *)
Definition processBatch (s : ClientState) (batch : BatchInfo)
  : ClientState * result DetectionResult.t :=
  let '(s', response) := analyzeJSVMP s (content batch) in
  match response with
  | Err e => (s', Err e)
  | Ok llmResponse => (s', Parser.parseDetectionResult JSON_parse llmResponse)
  end.

Definition batchErrorMessage (i : nat) (batch : BatchInfo) (message : string) : string :=
  "Batch " +++ nat_to_string (S i) +++ " (lines " +++ jsint_to_string (startLine batch) +++
  "-" +++ jsint_to_string (endLine batch) +++ ") failed: " +++ message.

(** The [for] loop over [batches], from index [i], with the arrays
    [results] and [errors] threaded through. *)
Fixpoint process_loop (s : ClientState) (i : nat) (batches : list BatchInfo)
    (results : list DetectionResult.t) (errors : list string)
  : list DetectionResult.t * list string :=
  match batches with
  | [] => (results, errors)
  | batch :: rest =>
      let '(s', outcome) := processBatch s batch in
      match outcome with
      | Ok result => process_loop s' (S i) rest (results ++ [result]) errors
      | Err e => process_loop s' (S i) rest results (errors ++ [batchErrorMessage i batch e])
      end
  end.

Definition processBatchesWithErrorHandling (s : ClientState) (batches : list BatchInfo)
  : list DetectionResult.t * list string :=
  process_loop s 0 batches [] [].

(** The outcomes of the calls made on [batches], in order, each with the
    client state it was made in. *)
Fixpoint outcomes (s : ClientState) (batches : list BatchInfo)
  : list (result DetectionResult.t) :=
  match batches with
  | [] => []
  | batch :: rest =>
      let '(s', outcome) := processBatch s batch in outcome :: outcomes s' rest
  end.

End WithClient.

End Processor.

(** The results and the error messages the loop should collect from the
    outcomes of its calls, as the specification describes them. *)

Module ProcessorSpec.
Import Batching.

Fixpoint ok_results {A} (os : list (result A)) : list A :=
  match os with
  | [] => []
  | Ok r :: os' => r :: ok_results os'
  | Err _ :: os' => ok_results os'
  end.

(** One message per failed batch, with the batch's index from [i]. *)
Fixpoint error_entries (i : nat) (batches : list BatchInfo)
    (os : list (result DetectionResult.t)) : list string :=
  match batches, os with
  | b :: bs, Err e :: os' => Processor.batchErrorMessage i b e :: error_entries (S i) bs os'
  | _ :: bs, Ok _ :: os' => error_entries (S i) bs os'
  | _, _ => []
  end.

End ProcessorSpec.

(** ** src/src/jsvmpDetector.ts: formatSourcePosition, formatEntireFile *)

Module FileFormat.
Import Batching.

(** [formatSourcePosition(line, column)], for the integer (or null)
    coordinates a source map returns. *)
Definition formatSourcePosition (line column : option Z) : string :=
  match line, column with
  | Some l, Some c => "L" +++ Z_to_string l +++ ":" +++ Z_to_string c
  | _, _ => ""
  end.

(** [text.split('\n')]. *)
Fixpoint split_newline_from (s : string) (current : string) : list string :=
  match s with
  | EmptyString => [current]
  | String c s' =>
      if Ascii.eqb c "010"%char then current :: split_newline_from s' ""
      else split_newline_from s' (current +++ String c "")
  end.

Definition split_newline (s : string) : list string := split_newline_from s "".

(** The [for (let lineNum = 1; lineNum <= totalLines; lineNum++)] loop, from
    line number [lineNum] over the remaining lines of [codeLines] (the index
    [lineNum - 1] is always inside the array, so [?? ''] never applies). *)
Fixpoint format_lines (sourcePos : Z -> string) (lineNum : Z) (codeLines : list string)
  : list string :=
  match codeLines with
  | [] => []
  | lineContent :: rest =>
      formatCodeLine lineNum (sourcePos lineNum) lineContent
        :: format_lines sourcePos (lineNum + 1) rest
  end.

Section WithSmartFs.
(** The external parts: [ensureBeautified] (which may reject), the source
    map it returns, [truncateCodeHighPerf], and the source map consumer. *)
Variable RawMap Consumer : Type.
Variable ensureBeautified : string -> result (string * option RawMap).
Variable truncateCodeHighPerf : string -> Q -> string.
(** [rawMap.sources && rawMap.names && rawMap.mappings]. *)
Variable map_fields_present : RawMap -> bool.
Variable newSourceMapConsumer : RawMap -> result Consumer.
(** [consumer.originalPositionFor({ line, column: 0 })]: its [line] and
    [column]. *)
Variable originalPositionFor : Consumer -> Z -> option Z * option Z.

(** [formatEntireFile(filePath, charLimit)]: the formatted lines and
    [totalLines]. *)
Definition formatEntireFile (filePath : string) (charLimit : Q)
  : result (list string * nat) :=
  match ensureBeautified filePath with
  | Err e => Err e
  | Ok (code, rawMap) =>
      let truncatedCode := truncateCodeHighPerf code charLimit in
      let codeLines := split_newline truncatedCode in
      let totalLines := length codeLines in
      let consumer :=
        match rawMap with
        | Some m => if map_fields_present m then Some (newSourceMapConsumer m) else None
        | None => None
        end in
      match consumer with
      | Some (Err e) => Err e
      | Some (Ok c) =>
          let sourcePos lineNum :=
            let '(line, column) := originalPositionFor c lineNum in
            formatSourcePosition line column in
          Ok (format_lines sourcePos 1 codeLines, totalLines)
      | None => Ok (format_lines (fun _ => "") 1 codeLines, totalLines)
      end
  end.

End WithSmartFs.

End FileFormat.

(** ** src/src/jsvmpDetector.ts: findJsvmpDispatcher *)

Module Dispatcher.
Import Batching FileFormat Processor Merger.

(** [JsvmpDetectionResult]; an absent optional field is [None]. *)
Module JsvmpDetectionResult.
Record t : Type := mk {
  success : bool;
  filePath : string;
  totalLines : nat;
  batchCount : nat;
  result : option DetectionResult.t;
  formattedOutput : option string;
  error : option string;
  partialErrors : option (list string)
}.
End JsvmpDetectionResult.

Definition no_config_message : string :=
  "未配置 LLM。请设置环境变量 OPENAI_API_KEY 以启用 JSVMP dispatcher 检测功能。".

Section WithEnvironment.
(** What [getLLMConfig()] returns in the current environment, and
    [createLLMClient(config)], which may throw. *)
Variable Config : Type.
Variable llmConfig : option Config.
Variable ClientState : Type.
Variable createLLMClient : Config -> result ClientState.
Variable analyzeJSVMP : ClientState -> string -> ClientState * result string.
Variable JSON_parse : string -> result json.
(** [existsSync(filePath)]. *)
Variable existsSync : string -> bool.
(** The externals of [formatEntireFile], as in [FileFormat]. *)
Variable RawMap Consumer : Type.
Variable ensureBeautified : string -> result (string * option RawMap).
Variable truncateCodeHighPerf : string -> Q -> string.
Variable map_fields_present : RawMap -> bool.
Variable newSourceMapConsumer : RawMap -> result Consumer.
Variable originalPositionFor : Consumer -> Z -> option Z * option Z.
Variable encode_len : string -> nat.
(** [formatDetectionResultOutput(result, filePath, totalLines, batchCount)],
    the text rendering of a merged result. *)
Variable formatDetectionResultOutput : DetectionResult.t -> string -> nat -> nat -> string.

(** The [catch] branch: [{ success: false, filePath, totalLines: 0,
    batchCount: 0, error: error.message }]. *)
Definition failure (filePath : string) (message : string) : JsvmpDetectionResult.t :=
  JsvmpDetectionResult.mk false filePath 0 0 None None (Some message) None.

(** [findJsvmpDispatcher(filePath, { charLimit, maxTokensPerBatch })]. *)
Definition findJsvmpDispatcher (filePath : string) (charLimitOpt maxTokensOpt : option Q)
  : JsvmpDetectionResult.t :=
  let charLimit := match charLimitOpt with Some c => c | None => 300 end in
  let maxTokensPerBatch := match maxTokensOpt with Some m => m | None => 8000 end in
  match llmConfig with
  | None => failure filePath no_config_message
  | Some config =>
      if negb (existsSync filePath) then failure filePath ("文件不存在: " +++ filePath)
      else
      match formatEntireFile RawMap Consumer ensureBeautified truncateCodeHighPerf
              map_fields_present newSourceMapConsumer originalPositionFor filePath charLimit with
      | Err e => failure filePath e
      | Ok (lines, totalLines) =>
      match createBatches encode_len lines maxTokensPerBatch with
      | Err e => failure filePath e
      | Ok batches =>
      let batchCount := length batches in
      match createLLMClient config with
      | Err e => failure filePath e
      | Ok client =>
      let '(results, errors) :=
        processBatchesWithErrorHandling ClientState analyzeJSVMP JSON_parse client batches in
      match results with
      | [] =>
          JsvmpDetectionResult.mk false filePath totalLines batchCount None None
            (Some ("所有批次处理失败: " +++ join "; " errors)) (Some errors)
      | _ :: _ =>
          let mergedResult := mergeDetectionResults results in
          let formattedOutput :=
            formatDetectionResultOutput mergedResult filePath totalLines batchCount in
          JsvmpDetectionResult.mk true filePath totalLines batchCount (Some mergedResult)
            (Some formattedOutput) None
            (match errors with [] => None | _ :: _ => Some errors end)
      end
      end
      end
      end
  end.

End WithEnvironment.

End Dispatcher.

(** ** src/src/llmConfig.ts: validateProvider, getLLMConfig *)

Module LLMConfig.

Inductive LLMProvider : Type := openai | anthropic | google.

Definition provider_name (p : LLMProvider) : string :=
  match p with openai => "openai" | anthropic => "anthropic" | google => "google" end.

(** [PROVIDER_DEFAULTS[p].model]. *)
Definition PROVIDER_DEFAULTS_model (p : LLMProvider) : string :=
  match p with
  | openai => "gpt-4.1-mini"
  | anthropic => "claude-haiku-4-5-20241022"
  | google => "gemini-2.5-flash-lite"
  end.

(** [PROVIDER_ENV_KEYS[p]]: the names of the API key, model and base URL
    variables. *)
Definition PROVIDER_ENV_KEYS_apiKey (p : LLMProvider) : string :=
  match p with openai => "OPENAI_API_KEY" | anthropic => "ANTHROPIC_API_KEY"
             | google => "GOOGLE_API_KEY" end.
Definition PROVIDER_ENV_KEYS_model (p : LLMProvider) : string :=
  match p with openai => "OPENAI_MODEL" | anthropic => "ANTHROPIC_MODEL"
             | google => "GOOGLE_MODEL" end.
Definition PROVIDER_ENV_KEYS_baseUrl (p : LLMProvider) : string :=
  match p with openai => "OPENAI_BASE_URL" | anthropic => "ANTHROPIC_BASE_URL"
             | google => "GOOGLE_BASE_URL" end.

Record t : Type := mk {
  provider : LLMProvider;
  apiKey : string;
  model : string;
  baseUrl : option string
}.

(** [validateProvider(value)]. *)
Definition validateProvider (value : option string) : option LLMProvider :=
  match value with
  | None => None
  | Some v =>
      if String.eqb v "openai" then Some openai
      else if String.eqb v "anthropic" then Some anthropic
      else if String.eqb v "google" then Some google
      else None
  end.

(** JavaScript's [a || b] on [string | undefined]: [a] unless it is
    undefined or the empty string. *)
Definition js_or (a b : option string) : option string :=
  match a with
  | Some s => if String.eqb s "" then b else a
  | None => b
  end.

(** [a || b] with a string [b] as the last operand. *)
Definition js_or_str (a : option string) (b : string) : string :=
  match a with
  | Some s => if String.eqb s "" then b else s
  | None => b
  end.

Section WithEnvironment.
(** [process.env], and [String.prototype.toLowerCase]. *)
Variable env : string -> option string.
Variable toLowerCase : string -> string.

(** [getLLMConfig()]; the [console.warn] of an invalid provider is not
    modelled. *)
Definition getLLMConfig : option t :=
  let providerEnv := option_map toLowerCase (env "LLM_PROVIDER") in
  let provider := validateProvider providerEnv in
  match provider, providerEnv with
  | None, Some _ => None
  | _, _ =>
      let effectiveProvider := match provider with Some p => p | None => openai end in
      match env (PROVIDER_ENV_KEYS_apiKey effectiveProvider) with
      | None => None
      | Some apiKey =>
          if String.eqb apiKey "" then None
          else
            let model :=
              js_or_str (js_or (env "LLM_MODEL") (env (PROVIDER_ENV_KEYS_model effectiveProvider)))
                        (PROVIDER_DEFAULTS_model effectiveProvider) in
            let baseUrl := js_or (env "LLM_BASE_URL")
                                 (env (PROVIDER_ENV_KEYS_baseUrl effectiveProvider)) in
            Some (mk effectiveProvider apiKey model baseUrl)
      end
  end.

(** [isLLMConfigured()]. *)
Definition isLLMConfigured : bool :=
  match getLLMConfig with Some _ => true | None => false end.

End WithEnvironment.

End LLMConfig.

(** * Theorems *)

Module TokenizerFacts.
Import Tokenizer.

Section WithEncoding.
Variable encode_len : string -> nat.

Lemma concat_snoc {A} (l : list (list A)) (x : list A) :
  concat (l ++ [x]) = concat l ++ x.
Proof. rewrite concat_app. simpl. now rewrite app_nil_r. Qed.

Lemma split_loop_concat (maxTokens : Q) (rest : list string) :
  forall batches currentBatch currentTokenCount,
    concat (split_loop encode_len maxTokens rest batches currentBatch currentTokenCount)
    = concat batches ++ currentBatch ++ rest.
Proof.
  induction rest as [|line rest IH]; intros batches cur cnt; simpl.
  - destruct cur as [|c cur]; simpl; rewrite ?concat_snoc, ?app_nil_r; reflexivity.
  - destruct (negb _); destruct cur as [|c cur]; simpl; rewrite ?andb_false_r;
      try destruct (negb _); simpl; rewrite IH, ?concat_snoc; simpl;
      rewrite ?app_nil_r, <- ?app_assoc; reflexivity.
Qed.

Lemma split_loop_nonempty (maxTokens : Q) (rest : list string) :
  forall batches currentBatch currentTokenCount,
    Forall (fun b => b <> []) batches ->
    Forall (fun b => b <> [])
      (split_loop encode_len maxTokens rest batches currentBatch currentTokenCount).
Proof.
  induction rest as [|line rest IH]; intros batches cur cnt Hb; simpl.
  - destruct cur as [|c cur]; simpl; auto.
    apply Forall_app; split; auto. constructor; [discriminate | constructor].
  - destruct (negb _); destruct cur as [|c cur]; simpl; rewrite ?andb_false_r;
      try destruct (negb _); simpl; apply IH;
      repeat (apply Forall_app; split); auto; repeat constructor; discriminate.
Qed.

Lemma Qle_bool_false_of_lt (x : Q) : 0 < x -> Qle_bool x 0 = false.
Proof.
  intros H. destruct (Qle_bool x 0) eqn:E; auto.
  apply Qle_bool_iff in E. exfalso. apply (Qlt_not_le 0 x); auto.
Qed.

(** C2: for a non-empty line array and a positive [maxTokens],
    [splitByTokenLimit] returns batches whose concatenation is exactly the
    input array; every batch is non-empty and consists of whole input lines. *)
Theorem splitByTokenLimit_concat (lines : list string) (maxTokens : Q)
  (Hne : lines <> []) (Hpos : 0 < maxTokens) :
  exists batches,
    splitByTokenLimit encode_len lines maxTokens = Ok batches /\
    concat batches = lines /\
    Forall (fun batch => batch <> [] /\ Forall (fun line => In line lines) batch) batches.
Proof.
  unfold splitByTokenLimit.
  destruct lines as [|l0 ls]; [contradiction|].
  simpl Nat.eqb. cbv iota. rewrite (Qle_bool_false_of_lt _ Hpos).
  eexists; split; [reflexivity|].
  assert (Hc := split_loop_concat maxTokens (l0 :: ls) [] [] 0). simpl in Hc.
  split; [exact Hc|].
  assert (Hn := split_loop_nonempty maxTokens (l0 :: ls) [] [] 0 (Forall_nil _)).
  apply Forall_forall. intros b Hb. split.
  - exact (proj1 (Forall_forall _ _) Hn b Hb).
  - apply Forall_forall. intros x Hx. rewrite <- Hc.
    apply in_concat. eauto.
Qed.

(** C4 (as amended): for [maxTokens <= 0], [splitByTokenLimit] throws on
    every non-empty line array; on the empty array it returns no batch,
    whatever [maxTokens] is (the emptiness test comes first). *)
Theorem splitByTokenLimit_nonpositive (lines : list string) (maxTokens : Q) :
  (maxTokens <= 0 -> lines <> [] ->
   splitByTokenLimit encode_len lines maxTokens = Err "maxTokens must be a positive number") /\
  (lines = [] -> splitByTokenLimit encode_len lines maxTokens = Ok []).
Proof.
  unfold splitByTokenLimit. split.
  - intros Hle H. destruct lines as [|l0 ls]; [contradiction|]. simpl Nat.eqb. cbv iota.
    apply Qle_bool_iff in Hle. now rewrite Hle.
  - intros H. now subst.
Qed.

End WithEncoding.
End TokenizerFacts.

Module BatchingFacts.
Import Batching.

Lemma last_app_nonempty {A} (l l' : list A) (d : A) :
  l' <> [] -> last (l ++ l') d = last l' d.
Proof.
  intros H. induction l as [|x l IH]; simpl; auto.
  rewrite IH. destruct l; simpl; auto. destruct l'; [contradiction|auto].
Qed.

Lemma last_default {A} (x : A) (l : list A) (d d' : A) :
  last (x :: l) d = last (x :: l) d'.
Proof.
  revert x. induction l as [|y l IH]; intros x; simpl; auto.
  apply (IH y).
Qed.

Section WithEncoding.
Variable encode_len : string -> nat.

Lemma batches_of_app (lb lb' : list (list string)) :
  batches_of encode_len (lb ++ lb') = batches_of encode_len lb ++ batches_of encode_len lb'.
Proof.
  induction lb as [|b lb IH]; simpl; auto.
  destruct b; simpl; rewrite IH; auto.
Qed.

(** The last batch of [createBatches] ends at the number read from the last
    formatted line. *)
Lemma createBatches_last (lines : list string) (maxTokens : Q)
  (Hne : lines <> []) (Hpos : 0 < maxTokens) :
  exists pre b,
    createBatches encode_len lines maxTokens = Ok (pre ++ [b]) /\
    endLine b = extractLineNumber (last lines "").
Proof.
  destruct (TokenizerFacts.splitByTokenLimit_concat encode_len lines maxTokens Hne Hpos)
    as (lb & Hsplit & Hconcat & Hall).
  assert (Hlast : last lines "" = last (concat lb) "") by now rewrite Hconcat.
  rewrite Hlast. clear Hlast.
  unfold createBatches. destruct lines as [|l0 ls]; [contradiction|].
  simpl Nat.eqb. cbv iota. rewrite Hsplit.
  destruct lb as [|b0 lb0] using rev_ind.
  { simpl in Hconcat. discriminate. }
  apply Forall_app in Hall. destruct Hall as [_ Hb0].
  inversion Hb0 as [|? ? [Hb0ne _] _]; subst.
  destruct b0 as [|f r]; [contradiction|].
  rewrite batches_of_app. simpl.
  eexists _, _. split; [reflexivity|]. cbn [endLine].
  rewrite concat_app. simpl. rewrite app_nil_r.
  rewrite last_app_nonempty by discriminate.
  f_equal. apply last_default.
Qed.

End WithEncoding.

Lemma file_lines_last (p : positive) (code : string) :
  last (file_lines (Pos.succ p) code) "" = formatCodeLine (Zpos (Pos.succ p)) "" code.
Proof.
  unfold file_lines. rewrite Pos.peano_rect_succ.
  rewrite last_app_nonempty by discriminate. reflexivity.
Qed.

Lemma file_lines_nonempty (n : positive) (code : string) : file_lines n code <> [].
Proof.
  unfold file_lines. induction n as [|p IH] using Pos.peano_ind.
  - discriminate.
  - rewrite Pos.peano_rect_succ. destruct (Pos.peano_rect _ _ _ p); discriminate.
Qed.

(** C5 (code bug): the line numbers of a 100000-line file are 1-based and
    sequential, yet the last batch [createBatches] builds from it, whatever
    the tokenizer and the positive budget, records [endLine = 10000]:
    [extractLineNumber] reads only the first five characters, and
    [formatCodeLine] writes the six digits of 100000 without padding. *)
Theorem createBatches_six_digit_endLine (encode_len : string -> nat) (maxTokens : Q)
  (Hpos : 0 < maxTokens) :
  exists pre b,
    createBatches encode_len (file_lines 100000 "x") maxTokens = Ok (pre ++ [b]) /\
    endLine b = JSInt 10000 /\ endLine b <> JSInt 100000.
Proof.
  destruct (createBatches_last encode_len (file_lines 100000 "x") maxTokens
              (file_lines_nonempty 100000 "x") Hpos) as (pre & b & Hc & He).
  exists pre, b. split; [exact Hc|].
  pose proof (file_lines_last 99999 "x") as Hl. change (Pos.succ 99999) with 100000%positive in Hl.
  rewrite He, Hl. split; [reflexivity | discriminate].
Qed.

End BatchingFacts.

Module MergerFacts.
Import Merger.

Definition le_start (a b : DetectionRegion.t) : Prop :=
  DetectionRegion.start a <= DetectionRegion.start b.

Lemma overlaps_sym (a b : DetectionRegion.t) : overlaps a b = overlaps b a.
Proof. unfold overlaps. apply andb_comm. Qed.

Lemma Qle_bool_false_lt (x y : Q) : Qle_bool x y = false -> y < x.
Proof.
  intros H. apply Qnot_le_lt. intros Hle. apply Qle_bool_iff in Hle. congruence.
Qed.

(** *** Sorting *)

Lemma insert_by_start_perm (x : DetectionRegion.t) (l : list DetectionRegion.t) :
  Permutation (x :: l) (insert_by_start x l).
Proof.
  induction l as [|y l IH]; simpl; auto.
  destruct (Qle_bool _ _); auto.
  eapply perm_trans; [apply perm_swap|]. constructor. exact IH.
Qed.

Lemma sort_by_start_perm_aux (l acc : list DetectionRegion.t) :
  Permutation (fold_left (fun acc x => insert_by_start x acc) l acc) (l ++ acc).
Proof.
  revert acc. induction l as [|x l IH]; intros acc; simpl; auto.
  eapply perm_trans; [apply IH|].
  eapply perm_trans; [apply Permutation_app_head; apply Permutation_sym, insert_by_start_perm|].
  apply Permutation_sym, Permutation_middle.
Qed.

Lemma sort_by_start_perm (l : list DetectionRegion.t) : Permutation l (sort_by_start l).
Proof.
  unfold sort_by_start. apply Permutation_sym.
  eapply perm_trans; [apply sort_by_start_perm_aux|]. now rewrite app_nil_r.
Qed.

Lemma insert_by_start_hd (x y : DetectionRegion.t) (l : list DetectionRegion.t) :
  HdRel le_start y l -> le_start y x -> HdRel le_start y (insert_by_start x l).
Proof.
  intros Hh Hyx. destruct l as [|z l]; simpl.
  - constructor. exact Hyx.
  - destruct (Qle_bool _ _); constructor; auto. now inversion Hh.
Qed.

Lemma insert_by_start_sorted (x : DetectionRegion.t) (l : list DetectionRegion.t) :
  Sorted le_start l -> Sorted le_start (insert_by_start x l).
Proof.
  induction l as [|y l IH]; intros Hs; simpl.
  - repeat constructor.
  - destruct (Qle_bool (DetectionRegion.start y) (DetectionRegion.start x)) eqn:E.
    + apply Sorted_inv in Hs. destruct Hs as [Hs Hh]. constructor; auto.
      apply insert_by_start_hd; auto. now apply Qle_bool_iff.
    + constructor; auto. constructor. apply Qlt_le_weak, Qle_bool_false_lt, E.
Qed.

Lemma sort_by_start_sorted (l : list DetectionRegion.t) : Sorted le_start (sort_by_start l).
Proof.
  unfold sort_by_start.
  assert (H : forall acc, Sorted le_start acc ->
            Sorted le_start (fold_left (fun acc x => insert_by_start x acc) l acc)).
  { induction l as [|x l IH]; intros acc Hs; simpl; auto.
    apply IH, insert_by_start_sorted, Hs. }
  apply H. constructor.
Qed.

(** *** Pairwise disjoint regions *)

Definition disjoint (a b : DetectionRegion.t) : Prop := overlaps a b = false.

Lemma ForallOrdPairs_perm (l l' : list DetectionRegion.t) :
  Permutation l l' -> ForallOrdPairs disjoint l -> ForallOrdPairs disjoint l'.
Proof.
  unfold disjoint.
  induction 1 as [|x l l' Hp IH|x y l|l l' l'' H1 IH1 H2 IH2]; intros H; auto.
  - inversion H as [|? ? Hx Hl]; subst. constructor; auto.
    apply Forall_forall. intros z Hz. apply (proj1 (Forall_forall _ _) Hx).
    now apply Permutation_in with l'; [apply Permutation_sym|].
  - inversion H as [|? ? Hy Hl]; subst. inversion Hl as [|? ? Hx Hl']; subst.
    inversion Hy as [|? ? Hyx Hy']; subst.
    constructor; [constructor; auto; now rewrite overlaps_sym|].
    constructor; auto.
Qed.

Lemma ForallOrdPairs_before (R : DetectionRegion.t -> DetectionRegion.t -> Prop)
  (l1 l2 : list DetectionRegion.t) (x : DetectionRegion.t) :
  ForallOrdPairs R (l1 ++ x :: l2) -> Forall (fun y => R y x) l1.
Proof.
  induction l1 as [|y l1 IH]; simpl; intros H; auto.
  inversion H as [|? ? Hy Hl]; subst. constructor; auto.
  apply (proj1 (Forall_forall _ _) Hy). apply in_or_app. right. now left.
Qed.

Lemma find_overlap_none (x : DetectionRegion.t) (acc : list DetectionRegion.t) (i : nat) :
  Forall (fun y => overlaps x y = false) acc -> find_overlap x acc i = None.
Proof.
  revert i. induction acc as [|y acc IH]; intros i H; simpl; auto.
  inversion H as [|? ? Hy Hacc]; subst. rewrite Hy. auto.
Qed.

Lemma deduplicate_disjoint_aux (l acc : list DetectionRegion.t) :
  ForallOrdPairs disjoint (acc ++ l) -> fold_left dedup_step l acc = acc ++ l.
Proof.
  revert acc. induction l as [|x l IH]; intros acc H; simpl.
  - now rewrite app_nil_r.
  - unfold dedup_step at 2.
    rewrite find_overlap_none.
    + rewrite IH; [now rewrite <- app_assoc|]. now rewrite <- app_assoc.
    + apply ForallOrdPairs_before in H. unfold disjoint in H.
      apply Forall_forall. intros y Hy.
      rewrite overlaps_sym. exact (proj1 (Forall_forall _ _) H y Hy).
Qed.

Lemma deduplicate_disjoint (l : list DetectionRegion.t) :
  ForallOrdPairs disjoint l -> deduplicate l = l.
Proof. intros H. apply (deduplicate_disjoint_aux l []). exact H. Qed.

Lemma merge_regions_multi (results : list DetectionResult.t) :
  (2 <= length results)%nat ->
  DetectionResult.regions (mergeDetectionResults results)
  = deduplicate (sort_by_start (concat (map DetectionResult.regions results))).
Proof.
  intros H. destruct results as [|r0 [|r1 rest]]; simpl in H; try lia. reflexivity.
Qed.

(** C1 (as amended): two overlapping regions supplied across at least two
    detection results merge into one region. The stable sort by [start]
    puts first the one with the smaller [start] (on equal starts, the earlier
    in combined input order); dedup keeps the second one only when its
    confidence is strictly higher, so a tie keeps the first after sorting. *)
Theorem mergeDetectionResults_overlapping_pair (results : list DetectionResult.t)
  (a b : DetectionRegion.t)
  (Hlen : (2 <= length results)%nat)
  (Hregions : concat (map DetectionResult.regions results) = [a; b])
  (Hoverlap : overlaps a b = true) :
  DetectionResult.regions (mergeDetectionResults results) =
  (if Qle_bool (DetectionRegion.start a) (DetectionRegion.start b)
   then [if Z.gtb (confidenceOrder (DetectionRegion.confidence b))
                  (confidenceOrder (DetectionRegion.confidence a)) then b else a]
   else [if Z.gtb (confidenceOrder (DetectionRegion.confidence a))
                  (confidenceOrder (DetectionRegion.confidence b)) then a else b]).
Proof.
  rewrite merge_regions_multi by exact Hlen. rewrite Hregions.
  unfold sort_by_start, deduplicate. simpl.
  destruct (Qle_bool (DetectionRegion.start a) (DetectionRegion.start b)); simpl;
    unfold dedup_step; simpl.
  - rewrite overlaps_sym, Hoverlap.
    destruct (Z.gtb _ _); reflexivity.
  - rewrite Hoverlap. destruct (Z.gtb _ _); reflexivity.
Qed.

(** C3 (code bug): the single-input branch only sorts. A single detection
    result holding two overlapping regions [a] and [b] gets them back both,
    sorted by [start], although the overlap/confidence deduplication keeps
    one of them; the multi-input branch applies it, so the same result
    merged with a second result that has no region comes back with one. *)
Theorem mergeDetectionResults_single_skips_dedup (r r' : DetectionResult.t)
  (a b : DetectionRegion.t)
  (Hregions : DetectionResult.regions r = [a; b])
  (Hempty : DetectionResult.regions r' = [])
  (Hoverlap : overlaps a b = true) :
  DetectionResult.regions (mergeDetectionResults [r]) = sort_by_start [a; b] /\
  length (DetectionResult.regions (mergeDetectionResults [r])) = 2%nat /\
  length (deduplicate (sort_by_start [a; b])) = 1%nat /\
  length (DetectionResult.regions (mergeDetectionResults [r; r'])) = 1%nat.
Proof.
  assert (Hd : length (deduplicate (sort_by_start [a; b])) = 1%nat).
  { unfold sort_by_start, deduplicate. simpl.
    destruct (Qle_bool (DetectionRegion.start a) (DetectionRegion.start b)); simpl;
      unfold dedup_step; simpl.
    - rewrite overlaps_sym, Hoverlap. destruct (Z.gtb _ _); reflexivity.
    - rewrite Hoverlap. destruct (Z.gtb _ _); reflexivity. }
  assert (Hs : DetectionResult.regions (mergeDetectionResults [r]) = sort_by_start [a; b]).
  { simpl. rewrite Hregions. reflexivity. }
  split; [exact Hs|]. split.
  - rewrite Hs. unfold sort_by_start. simpl.
    destruct (Qle_bool (DetectionRegion.start a) (DetectionRegion.start b)); reflexivity.
  - split; [exact Hd|].
    rewrite merge_regions_multi by (simpl; lia). simpl. rewrite Hregions, Hempty. exact Hd.
Qed.

(** C9: when no two regions of all the inputs overlap, the merge keeps every
    region and returns them sorted by [start]. *)
Theorem mergeDetectionResults_disjoint (results : list DetectionResult.t)
  (Hdisjoint : ForallOrdPairs disjoint (concat (map DetectionResult.regions results))) :
  length (DetectionResult.regions (mergeDetectionResults results))
  = length (concat (map DetectionResult.regions results)) /\
  Sorted le_start (DetectionResult.regions (mergeDetectionResults results)).
Proof.
  destruct results as [|r0 [|r1 rest]].
  - simpl. split; auto.
  - simpl. rewrite app_nil_r. split.
    + symmetry. apply Permutation_length, sort_by_start_perm.
    + apply sort_by_start_sorted.
  - rewrite merge_regions_multi by (simpl; lia).
    rewrite deduplicate_disjoint.
    + split; [symmetry; apply Permutation_length, sort_by_start_perm|].
      apply sort_by_start_sorted.
    + eapply ForallOrdPairs_perm; [apply sort_by_start_perm|exact Hdisjoint].
Qed.

End MergerFacts.

Module StringFacts.

(** *** Substrings *)

Lemma prefix_nil (s : string) : String.prefix "" s = true.
Proof. destruct s; reflexivity. Qed.

Lemma prefix_app (n s : string) : String.prefix n (n +++ s) = true.
Proof.
  induction n as [|c n IH]; simpl; [apply prefix_nil|].
  destruct (ascii_dec c c); [exact IH | contradiction].
Qed.

Lemma prefix_app_l (n s1 s2 : string) :
  String.prefix n s1 = true -> String.prefix n (s1 +++ s2) = true.
Proof.
  revert s1. induction n as [|c n IH]; intros s1 H; [apply prefix_nil|].
  destruct s1 as [|c' s1]; simpl in H; [discriminate|]. simpl.
  destruct (ascii_dec c c'); [apply IH, H | discriminate].
Qed.

Lemma contains_cons (n : string) (c : ascii) (s : string) :
  contains n (String c s) = String.prefix n (String c s) || contains n s.
Proof. reflexivity. Qed.

Lemma contains_cons_r (n : string) (c : ascii) (s : string) :
  contains n s = true -> contains n (String c s) = true.
Proof. intros H. rewrite contains_cons, H. apply orb_true_r. Qed.

Lemma contains_app_r (n s1 s2 : string) :
  contains n s2 = true -> contains n (s1 +++ s2) = true.
Proof.
  intros H. induction s1 as [|c s1 IH]; [exact H|].
  change (String c s1 +++ s2) with (String c (s1 +++ s2)).
  rewrite contains_cons, IH. apply orb_true_r.
Qed.

Lemma contains_app_l (n s1 s2 : string) :
  contains n s1 = true -> contains n (s1 +++ s2) = true.
Proof.
  induction s1 as [|c s1 IH]; intros H.
  - destruct n; [destruct s2; reflexivity | discriminate].
  - change (String c s1 +++ s2) with (String c (s1 +++ s2)).
    rewrite contains_cons in *.
    apply orb_true_iff in H. apply orb_true_iff. destruct H as [H|H].
    + left. change (String c (s1 +++ s2)) with (String c s1 +++ s2).
      now apply prefix_app_l.
    + right. now apply IH.
Qed.

Lemma contains_self (n s : string) : contains n (n +++ s) = true.
Proof.
  destruct n as [|c n].
  - destruct s; reflexivity.
  - change (String c n +++ s) with (String c (n +++ s)). rewrite contains_cons.
    change (String c (n +++ s)) with (String c n +++ s). now rewrite prefix_app.
Qed.

Lemma contains_nonempty (c : ascii) (n m : string) :
  contains (String c n) m = true -> m <> "".
Proof. intros H E. subst. discriminate. Qed.

Lemma append_assoc (s1 s2 s3 : string) : (s1 +++ s2) +++ s3 = s1 +++ (s2 +++ s3).
Proof. induction s1 as [|c s1 IH]; simpl; [reflexivity | now rewrite IH]. Qed.

Lemma append_nil_r (s : string) : s +++ "" = s.
Proof. induction s as [|c s IH]; simpl; [reflexivity | now rewrite IH]. Qed.

End StringFacts.

Module ParserFacts.
Import Parser ParserSpec StringFacts.

(** *** One region *)

(** [contains lit (invalid +++ region_tag i +++ rest)] where [lit] is in the
    literal [rest]. *)
Ltac msg_literal_tac :=
  apply contains_app_r; apply contains_app_r; vm_compute; reflexivity.

Ltac msg_tag_tac := apply contains_app_r; apply contains_self.

Ltac region_offence_tac :=
  match goal with
  | E : as_number (nullish (get _ "start_line") _) = None |- _ =>
      right; left; split; [exact E | msg_literal_tac]
  | E : as_number (nullish (get _ "end_line") _) = None |- _ =>
      do 2 right; left; split; [exact E | msg_literal_tac]
  | E : as_string (get _ "type") = None |- _ =>
      do 3 right; left; split; [exact E | msg_literal_tac]
  | E : as_string (get _ "confidence") = None |- _ =>
      do 4 right; left; split; [exact E | msg_literal_tac]
  | E : as_string (get _ "description") = None |- _ =>
      do 5 right; left; split; [exact E | msg_literal_tac]
  | E : isValidDetectionType ?t = None, E' : as_string (get _ "type") = Some ?t |- _ =>
      do 6 right; left; split; [exists t; split; [exact E' | exact E]|];
      split; [ apply contains_app_r, contains_app_r, contains_app_l; vm_compute; reflexivity
             | do 8 apply contains_app_r; vm_compute; reflexivity ]
  | E : isValidConfidenceLevel ?c = None, E' : as_string (get _ "confidence") = Some ?c |- _ =>
      do 7 right; split; [exists c; split; [exact E' | exact E]|];
      split; [ apply contains_app_r, contains_app_r, contains_app_l; vm_compute; reflexivity
             | do 8 apply contains_app_r; vm_compute; reflexivity ]
  end.

Lemma Err_inj {A} (a b : string) : @Err A a = Err b -> a = b.
Proof. intros H. now injection H. Qed.

Lemma parseRegion_err (i : nat) (r : json) (m : string) :
  parseRegion i r = Err m -> names_region_offence i r m.
Proof.
  intros H. unfold names_region_offence.
  destruct r as [| | | | xs | fs];
    try (unfold parseRegion in H; apply Err_inj in H; subst m;
         split; [msg_tag_tac | left; simpl; tauto]).
  all: unfold parseRegion in H;
    repeat match type of H with
    | context [match ?x with Some _ => _ | None => _ end] =>
        let E := fresh "E" in destruct x eqn:E
    end;
    try discriminate H; apply Err_inj in H; subst m;
    (split; [msg_tag_tac | unfold start_bad, end_bad, field_not_string, type_invalid,
                             confidence_invalid; region_offence_tac]).
Qed.

Lemma names_region_offence_bad (i : nat) (r : json) (m : string) :
  names_region_offence i r m -> region_bad r.
Proof. unfold names_region_offence, region_bad. intros [_ H]. tauto. Qed.

Ltac destruct_region_matches H :=
  repeat match type of H with
  | context [match ?x with Some _ => _ | None => _ end] =>
      let E := fresh "E" in destruct x eqn:E
  end.

Lemma parseRegion_ok_not_bad (i : nat) (r : json) (x : DetectionRegion.t) :
  parseRegion i r = Ok x -> ~ region_bad r.
Proof.
  intros H Hb.
  destruct r as [| | | | xs | fs]; try discriminate H;
    unfold parseRegion in H; destruct_region_matches H; try discriminate H;
    unfold region_bad, start_bad, end_bad, field_not_string, type_invalid,
      confidence_invalid in Hb;
    destruct Hb as [Hb|[Hb|[Hb|[Hb|[Hb|[Hb|[Hb|Hb]]]]]]];
    try (apply Hb; exact I); try congruence;
    destruct Hb as (? & ? & ?); congruence.
Qed.

Lemma parseRegion_bounds (i : nat) (r : json) (x : DetectionRegion.t) :
  parseRegion i r = Ok x -> bounds_kept r x.
Proof.
  intros H. unfold bounds_kept.
  destruct r as [| | | | xs | fs]; try discriminate H;
    unfold parseRegion in H; destruct_region_matches H; try discriminate H;
    injection H as <-; split; reflexivity.
Qed.

Lemma parseRegion_not_bad (i : nat) (r : json) :
  ~ region_bad r -> exists x, parseRegion i r = Ok x.
Proof.
  intros Hb. destruct (parseRegion i r) as [x|m] eqn:E; [eauto|].
  exfalso. apply Hb, (names_region_offence_bad i r m), parseRegion_err, E.
Qed.

Lemma parseRegion_bad (i : nat) (r : json) :
  region_bad r -> exists m, parseRegion i r = Err m.
Proof.
  intros Hb. destruct (parseRegion i r) as [x|m] eqn:E; [|eauto].
  exfalso. exact (parseRegion_ok_not_bad i r x E Hb).
Qed.

(** *** The region loop *)

Lemma parseRegions_err_inv (i : nat) (rs : list json) (m : string) :
  parseRegions i rs = Err m ->
  exists k r, nth_error rs k = Some r /\ parseRegion (i + k) r = Err m.
Proof.
  revert i. induction rs as [|r rs IH]; intros i H; simpl in H; [discriminate|].
  destruct (parseRegion i r) as [x|e] eqn:E1.
  - destruct (parseRegions (S i) rs) as [xs|e] eqn:E2; [discriminate|].
    injection H as <-. destruct (IH (S i) E2) as (k & r' & Hn & Hr).
    exists (S k), r'. split; [exact Hn|].
    replace (i + S k)%nat with (S i + k)%nat by lia. exact Hr.
  - injection H as <-. exists 0%nat, r. split; [reflexivity|].
    rewrite Nat.add_0_r. exact E1.
Qed.

Lemma parseRegions_In_bad (i : nat) (rs : list json) (r : json) :
  In r rs -> region_bad r -> exists m, parseRegions i rs = Err m.
Proof.
  revert i. induction rs as [|r0 rs IH]; intros i Hin Hb; [destruct Hin|]. simpl.
  destruct (parseRegion i r0) as [x|e] eqn:E1; [|eauto].
  destruct Hin as [<-|Hin]; [exfalso; exact (parseRegion_ok_not_bad i r0 x E1 Hb)|].
  destruct (IH (S i) Hin Hb) as [m Hm]. rewrite Hm. eauto.
Qed.

Lemma parseRegions_all_ok (i : nat) (rs : list json) :
  Forall (fun r => ~ region_bad r) rs ->
  exists out, parseRegions i rs = Ok out /\ Forall2 bounds_kept rs out.
Proof.
  intros H. revert i. induction H as [|r rs Hr Hrs IH]; intros i; simpl.
  - exists []. split; [reflexivity | constructor].
  - destruct (parseRegion_not_bad i r Hr) as [x Hx]. rewrite Hx.
    destruct (IH (S i)) as (out & Ho & Hf). rewrite Ho.
    exists (x :: out). split; [reflexivity|].
    constructor; [exact (parseRegion_bounds i r x Hx) | exact Hf].
Qed.

Lemma parseRegions_ext (i : nat) (l1 l2 : list json) :
  Forall2 (fun r1 r2 => forall j, parseRegion j r1 = parseRegion j r2) l1 l2 ->
  parseRegions i l1 = parseRegions i l2.
Proof.
  intros H. revert i. induction H as [|r1 r2 l1 l2 Hr _ IH]; intros i; simpl; [reflexivity|].
  rewrite Hr, IH. reflexivity.
Qed.

(** *** Regions with the same fields *)

Lemma parseRegion_ext (r1 r2 : json) :
  is_object_value r1 -> is_object_value r2 ->
  (forall k, existsb (String.eqb k) bound_keys = false -> get r1 k = get r2 k) ->
  as_number (nullish (get r1 "start_line") (get r1 "start")) =
    as_number (nullish (get r2 "start_line") (get r2 "start")) ->
  as_number (nullish (get r1 "end_line") (get r1 "end")) =
    as_number (nullish (get r2 "end_line") (get r2 "end")) ->
  forall j, parseRegion j r1 = parseRegion j r2.
Proof.
  intros O1 O2 Hg Hs He j.
  destruct r1 as [| | | | xs1 | fs1]; try contradiction;
    destruct r2 as [| | | | xs2 | fs2]; try contradiction;
    unfold parseRegion, parseVMComponents, parseDebuggingEntryPoint; cbv zeta;
    rewrite Hs, He, (Hg "type"), (Hg "confidence"), (Hg "description"),
      (Hg "vm_components"), (Hg "debugging_entry_point") by reflexivity;
    reflexivity.
Qed.

Lemma not_bound_key (k : string) :
  existsb (String.eqb k) bound_keys = false ->
  String.eqb k "start_line" = false /\ String.eqb k "end_line" = false /\
  String.eqb k "start" = false /\ String.eqb k "end" = false.
Proof.
  intros H. simpl in H. repeat rewrite orb_false_iff in H. tauto.
Qed.

Lemma assoc_bound_free (fields : list (string * json)) (k : string) :
  bound_free fields -> existsb (String.eqb k) bound_keys = true -> assoc k fields = None.
Proof.
  intros H Hk. induction H as [|[k' v] fields Hkv _ IH]; [reflexivity|]. simpl in *.
  destruct (String.eqb k k') eqn:E; [|exact IH].
  apply String.eqb_eq in E. subst k'. congruence.
Qed.

(** *** The whole response *)

Ltac destruct_parsed_matches H :=
  repeat (cbn beta iota zeta in H;
   match type of H with
   | context [match ?x with JNull => _ | JBool _ => _ | JNum _ => _ | JStr _ => _
                           | JArr _ => _ | JObj _ => _ end] =>
       let E := fresh "E" in destruct x eqn:E
   | context [match ?x with Some _ => _ | None => _ end] =>
       let E := fresh "E" in destruct x eqn:E
   | context [match ?x with Ok _ => _ | Err _ => _ end] =>
       let E := fresh "E" in destruct x eqn:E
   end).

Lemma parseParsed_err_names (v : json) (m : string) :
  is_object_value v -> parseParsed v = Err m -> m <> "" /\ names_offence v m.
Proof.
  intros Hobj H. destruct v as [| | | | xs | fs]; try contradiction;
  unfold parseParsed in H; destruct_parsed_matches H; try discriminate H.
  all: apply Err_inj in H; subst m; subst.
  all: lazymatch goal with
  | E : parseRegions 0 ?rs = Err ?e, E' : get _ "regions" = Some (JArr ?rs) |- _ =>
      destruct (parseRegions_err_inv 0 rs e E) as (k & r & Hk & Hr);
      apply parseRegion_err in Hr;
      split; [ destruct Hr as [Hr _]; exact (contains_nonempty _ _ _ Hr)
             | right; right; exists rs, k, r; split; [exact E' | split; [exact Hk | exact Hr]]]
  | |- context [invalid +++ "缺少必需字段: regions"] =>
      split; [discriminate|];
      right; left; split;
      [ unfold regions_bad;
        match goal with E : get _ "regions" = _ |- _ => rewrite E end; exact I
      | apply contains_app_r; vm_compute; reflexivity ]
  | |- _ =>
      split; [discriminate|];
      left; split;
      [ unfold summary_bad;
        match goal with E : get _ "summary" = _ |- _ => rewrite E end;
        cbn beta iota; auto
      | apply contains_app_r; vm_compute; reflexivity ]
  end.
Qed.
Lemma parseParsed_ok_inv (v : json) (res : DetectionResult.t) :
  parseParsed v = Ok res ->
  is_object_value v /\ ~ summary_bad v /\
  exists rs, get v "regions" = Some (JArr rs) /\
             parseRegions 0 rs = Ok (DetectionResult.regions res).
Proof.
  intros H. destruct v as [| | | | xs | fs]; try discriminate H;
  unfold parseParsed in H; destruct_parsed_matches H; try discriminate H.
  all: injection H as <-; subst; split; [exact I|].
  all: split;
    [ unfold summary_bad;
      match goal with E : get _ "summary" = _ |- _ => rewrite E end;
      cbn beta iota; first [intros [X|X]; congruence | intros []]
    | eexists; split; [reflexivity | cbn [DetectionResult.regions]; eassumption] ].
Qed.

Lemma parseParsed_bad_err (v : json) :
  is_object_value v ->
  summary_bad v \/ regions_bad v \/
  (exists rs r, get v "regions" = Some (JArr rs) /\ In r rs /\ region_bad r) ->
  exists m, parseParsed v = Err m.
Proof.
  intros Hobj Hbad. destruct (parseParsed v) as [res|m] eqn:E; [exfalso|eauto].
  destruct (parseParsed_ok_inv v res E) as (_ & Hs & rs & Hr & Hpr).
  destruct Hbad as [Hb|[Hb|(rs' & r & Hr' & Hin & Hb)]].
  - exact (Hs Hb).
  - unfold regions_bad in Hb. rewrite Hr in Hb. exact Hb.
  - rewrite Hr in Hr'. injection Hr' as <-.
    destruct (parseRegions_In_bad 0 rs r Hin Hb) as [m Hm]. congruence.
Qed.

Lemma parseParsed_ok (v : json) (rs : list json) (out : list DetectionRegion.t) :
  is_object_value v -> ~ summary_bad v -> get v "regions" = Some (JArr rs) ->
  parseRegions 0 rs = Ok out ->
  exists res, parseParsed v = Ok res /\ DetectionResult.regions res = out.
Proof.
  intros Hobj Hs Hr Hpr. destruct (parseParsed v) as [res|m] eqn:E.
  - exists res. split; [reflexivity|].
    destruct (parseParsed_ok_inv v res E) as (_ & _ & rs' & Hr' & Hpr').
    rewrite Hr in Hr'. injection Hr' as <-. congruence.
  - exfalso. apply parseParsed_err_names in E; [|exact Hobj].
    destruct E as [_ [[Hb _]|[[Hb _]|(rs' & k & r & Hr' & Hk & Hn)]]].
    + exact (Hs Hb).
    + unfold regions_bad in Hb. rewrite Hr in Hb. exact Hb.
    + rewrite Hr in Hr'. injection Hr' as <-.
      apply names_region_offence_bad in Hn.
      destruct (parseRegions_In_bad 0 rs r (nth_error_In rs k Hk) Hn) as [m' Hm'].
      congruence.
Qed.

Lemma parseParsed_ext (v1 v2 : json) (l1 l2 : list json) :
  is_object_value v1 -> is_object_value v2 ->
  (forall k, String.eqb k "regions" = false -> get v1 k = get v2 k) ->
  get v1 "regions" = Some (JArr l1) -> get v2 "regions" = Some (JArr l2) ->
  parseRegions 0 l1 = parseRegions 0 l2 ->
  parseParsed v1 = parseParsed v2.
Proof.
  intros O1 O2 Hg H1 H2 Hr.
  destruct v1 as [| | | | xs1 | fs1]; try contradiction;
    destruct v2 as [| | | | xs2 | fs2]; try contradiction;
    unfold parseParsed, parseGlobalBytecode; cbv zeta;
    rewrite (Hg "summary"), (Hg "global_bytecode") by reflexivity;
    rewrite H1, H2, Hr; reflexivity.
Qed.

Lemma get_cons (k k' : string) (v : json) (fields : list (string * json)) :
  get (JObj ((k', v) :: fields)) k = if String.eqb k k' then Some v else get (JObj fields) k.
Proof. reflexivity. Qed.

Lemma parseRegion_same_refl (l : list json) :
  Forall2 (fun r1 r2 => forall j, parseRegion j r1 = parseRegion j r2) l l.
Proof. induction l; constructor; auto. Qed.

Lemma parseParsed_with_region (top : list (string * json)) (pre post : list json)
    (r1 r2 : json) :
  (forall j, parseRegion j r1 = parseRegion j r2) ->
  parseParsed (with_region top pre post r1) = parseParsed (with_region top pre post r2).
Proof.
  intros H. apply (parseParsed_ext _ _ (pre ++ r1 :: post) (pre ++ r2 :: post));
    [exact I | exact I | | reflexivity | reflexivity |].
  - intros k Hk. unfold with_region. rewrite !get_cons, Hk. reflexivity.
  - apply parseRegions_ext, Forall2_app; [apply parseRegion_same_refl|].
    constructor; [exact H | apply parseRegion_same_refl].
Qed.

(** Rewrites the lookups of the four bound keys in a region built by
    [legacy_region], [current_region] or [both_region]. *)
Ltac bound_lookups Hfree :=
  unfold legacy_region, current_region, both_region; simpl;
  rewrite ?(assoc_bound_free _ "start_line" Hfree eq_refl),
    ?(assoc_bound_free _ "end_line" Hfree eq_refl),
    ?(assoc_bound_free _ "start" Hfree eq_refl),
    ?(assoc_bound_free _ "end" Hfree eq_refl).

Ltac other_lookups :=
  let k := fresh "k" in let Hk := fresh "Hk" in
  intros k Hk; destruct (not_bound_key k Hk) as (K1 & K2 & K3 & K4);
  unfold legacy_region, current_region, both_region;
  rewrite !get_cons, ?K1, ?K2, ?K3, ?K4; reflexivity.

(** *** Claims about [parseDetectionResult] *)

(** C7 (corrected). When the response text parses to a JSON object (or
    array) that misses [summary] or [regions], or holds a region that is not
    an object, lacks a numeric [start_line]/[start] or [end_line]/[end],
    lacks a string [type], [confidence] or [description], or has a [type] or
    [confidence] outside its enumeration, [parseDetectionResult] fails with
    a non-empty message that names an offending field ([summary],
    [regions], or [regions[i]] with its field), and for an enumeration
    violation the message lists the accepted values. A text that is not
    valid JSON fails with the parser's message after
    ["无法解析 LLM 响应: "], and one that parses to a value that is neither
    an object nor an array fails with [invalid +++ "期望对象类型"]. *)
Theorem parseDetectionResult_errors (JSON_parse : string -> result json)
    (text : string) :
  (forall v, JSON_parse text = Ok v ->
   is_object_value v ->
   summary_bad v \/ regions_bad v \/
   (exists rs r, get v "regions" = Some (JArr rs) /\ In r rs /\ region_bad r) ->
   exists m, parseDetectionResult JSON_parse text = Err m /\ m <> "" /\ names_offence v m) /\
  (forall e, JSON_parse text = Err e ->
   parseDetectionResult JSON_parse text = Err ("无法解析 LLM 响应: " +++ e)) /\
  (forall v, JSON_parse text = Ok v -> ~ is_object_value v ->
   parseDetectionResult JSON_parse text = Err (invalid +++ "期望对象类型")).
Proof.
  unfold parseDetectionResult. split; [|split].
  - intros v Hp Hobj Hbad. rewrite Hp.
    destruct (parseParsed_bad_err v Hobj Hbad) as [m Hm].
    exists m. split; [exact Hm|]. exact (parseParsed_err_names v m Hobj Hm).
  - intros e Hp. now rewrite Hp.
  - intros v Hp Hobj. rewrite Hp.
    destruct v; try reflexivity; exfalso; exact (Hobj I).
Qed.

(** C10. The parser does not compare a region's bounds: for a response
    whose summary is valid and whose regions are all valid, parsing
    succeeds and each region's [start] and [end] are the numbers of the
    response, whatever their order and whether or not they are integers. *)
Theorem parseDetectionResult_keeps_bounds (JSON_parse : string -> result json)
    (text : string) (v : json) (rs : list json) :
  JSON_parse text = Ok v ->
  is_object_value v ->
  ~ summary_bad v ->
  get v "regions" = Some (JArr rs) ->
  Forall (fun r => ~ region_bad r) rs ->
  exists res, parseDetectionResult JSON_parse text = Ok res /\
              Forall2 bounds_kept rs (DetectionResult.regions res).
Proof.
  intros Hp Hobj Hs Hr Hall. unfold parseDetectionResult. rewrite Hp.
  destruct (parseRegions_all_ok 0 rs Hall) as (out & Hout & Hb).
  destruct (parseParsed_ok v rs out Hobj Hs Hr Hout) as (res & Hres & Hreg).
  exists res. split; [exact Hres|]. rewrite Hreg. exact Hb.
Qed.

(** C6 (corrected). Take a region whose other fields [fields] do not use
    the four bound names. Spelling its bounds [start]/[end] or
    [start_line]/[end_line] with the same values gives the same parse; with
    both spellings present and non-null [start_line]/[end_line], the parse
    is that of the current spelling alone; but with [start_line] and
    [end_line] null, the parse is that of the legacy spelling alone, since
    [??] skips null. *)
Theorem parseDetectionResult_bound_names (JSON_parse : string -> result json)
    (top fields : list (string * json)) (pre post : list json) (a b a' b' : json) :
  bound_free fields ->
  (forall t1 t2,
     JSON_parse t1 = Ok (with_region top pre post (legacy_region a b fields)) ->
     JSON_parse t2 = Ok (with_region top pre post (current_region a b fields)) ->
     parseDetectionResult JSON_parse t1 = parseDetectionResult JSON_parse t2) /\
  (a <> JNull -> b <> JNull -> forall t1 t2,
     JSON_parse t1 = Ok (with_region top pre post (both_region a b a' b' fields)) ->
     JSON_parse t2 = Ok (with_region top pre post (current_region a b fields)) ->
     parseDetectionResult JSON_parse t1 = parseDetectionResult JSON_parse t2) /\
  (forall t1 t2,
     JSON_parse t1 = Ok (with_region top pre post (both_region JNull JNull a' b' fields)) ->
     JSON_parse t2 = Ok (with_region top pre post (legacy_region a' b' fields)) ->
     parseDetectionResult JSON_parse t1 = parseDetectionResult JSON_parse t2).
Proof.
  intros Hfree. split; [|split].
  - intros t1 t2 H1 H2. unfold parseDetectionResult. rewrite H1, H2.
    apply parseParsed_with_region, parseRegion_ext;
      [exact I | exact I | other_lookups | |]; bound_lookups Hfree.
    + destruct a; reflexivity.
    + destruct b; reflexivity.
  - intros Ha Hb t1 t2 H1 H2. unfold parseDetectionResult. rewrite H1, H2.
    apply parseParsed_with_region, parseRegion_ext;
      [exact I | exact I | other_lookups | |]; bound_lookups Hfree.
    + destruct a; [contradiction | reflexivity ..].
    + destruct b; [contradiction | reflexivity ..].
  - intros t1 t2 H1 H2. unfold parseDetectionResult. rewrite H1, H2.
    apply parseParsed_with_region, parseRegion_ext;
      [exact I | exact I | other_lookups | |]; bound_lookups Hfree; reflexivity.
Qed.

End ParserFacts.

Module ProcessorFacts.
Import Batching Processor ProcessorSpec StringFacts.

Section WithClient.
Variable ClientState : Type.
Variable analyzeJSVMP : ClientState -> string -> ClientState * result string.
Variable JSON_parse : string -> result json.

Lemma process_loop_eq (s : ClientState) (i : nat) (batches : list BatchInfo)
    (results : list DetectionResult.t) (errors : list string) :
  process_loop ClientState analyzeJSVMP JSON_parse s i batches results errors =
  (results ++ ok_results (outcomes ClientState analyzeJSVMP JSON_parse s batches),
   errors ++ error_entries i batches (outcomes ClientState analyzeJSVMP JSON_parse s batches)).
Proof.
  revert s i results errors.
  induction batches as [|b bs IH]; intros s i results errors; simpl.
  - rewrite !app_nil_r. reflexivity.
  - destruct (processBatch ClientState analyzeJSVMP JSON_parse s b) as [s' [r|e]]; simpl;
      rewrite IH, <- !app_assoc; reflexivity.
Qed.

Lemma outcomes_length (s : ClientState) (batches : list BatchInfo) :
  length (outcomes ClientState analyzeJSVMP JSON_parse s batches) = length batches.
Proof.
  revert s. induction batches as [|b bs IH]; intros s; simpl; [reflexivity|].
  destruct (processBatch ClientState analyzeJSVMP JSON_parse s b) as [s' o]. simpl.
  rewrite IH. reflexivity.
Qed.

End WithClient.

Lemma error_entries_In (i : nat) (batches : list BatchInfo)
    (os : list (result DetectionResult.t)) (m : string) :
  In m (error_entries i batches os) ->
  exists k b e, nth_error batches k = Some b /\ nth_error os k = Some (Err e) /\
                m = batchErrorMessage (i + k) b e.
Proof.
  revert i os. induction batches as [|b bs IH]; intros i os H; [destruct H|].
  destruct os as [|[r|e] os]; simpl in H; [destruct H | |].
  - destruct (IH (S i) os H) as (k & b' & e & Hb & Ho & Hm).
    exists (S k), b', e. split; [exact Hb|]. split; [exact Ho|].
    rewrite Hm. f_equal. lia.
  - destruct H as [<-|H].
    + exists 0%nat, b, e. split; [reflexivity|]. split; [reflexivity|].
      rewrite Nat.add_0_r. reflexivity.
    + destruct (IH (S i) os H) as (k & b' & e' & Hb & Ho & Hm).
      exists (S k), b', e'. split; [exact Hb|]. split; [exact Ho|].
      rewrite Hm. f_equal. lia.
Qed.

Lemma error_entries_all_failed (i : nat) (batches : list BatchInfo)
    (os : list (result DetectionResult.t)) :
  length os = length batches -> Forall (fun o => exists e, o = Err e) os ->
  ok_results os = [] /\ length (error_entries i batches os) = length batches.
Proof.
  revert i os. induction batches as [|b bs IH]; intros i os Hl Hf.
  - destruct os; [split; reflexivity | discriminate].
  - destruct os as [|o os]; [discriminate|]. inversion Hf as [|o' os' [e ->] Hf']; subst.
    simpl in Hl. injection Hl as Hl.
    destruct (IH (S i) os Hl Hf') as [H1 H2]. simpl. split; [exact H1 | now rewrite H2].
Qed.

Lemma contains_refl (n : string) : contains n n = true.
Proof. rewrite <- (append_nil_r n) at 2. apply contains_self. Qed.

Lemma batchErrorMessage_parts (i : nat) (b : BatchInfo) (e : string) :
  contains ("Batch " +++ nat_to_string (S i) +++ " ") (batchErrorMessage i b e) = true /\
  contains (jsint_to_string (startLine b) +++ "-" +++ jsint_to_string (endLine b))
    (batchErrorMessage i b e) = true /\
  contains e (batchErrorMessage i b e) = true.
Proof.
  unfold batchErrorMessage. split; [|split].
  - replace ("Batch " +++ nat_to_string (S i) +++ " (lines " +++ _)
      with (("Batch " +++ nat_to_string (S i) +++ " ") +++ "(lines " +++
            jsint_to_string (startLine b) +++ "-" +++ jsint_to_string (endLine b) +++
            ") failed: " +++ e)
      by (rewrite !append_assoc; reflexivity).
    apply contains_self.
  - apply contains_app_r, contains_app_r, contains_app_r.
    replace (jsint_to_string (startLine b) +++ "-" +++ jsint_to_string (endLine b) +++
             ") failed: " +++ e)
      with ((jsint_to_string (startLine b) +++ "-" +++ jsint_to_string (endLine b)) +++
            ") failed: " +++ e)
      by (rewrite !append_assoc; reflexivity).
    apply contains_self.
  - do 7 apply contains_app_r. apply contains_refl.
Qed.

(** C8. The loop calls the client on the batches in order, threading its
    state ([outcomes]); [results] holds the parsed results of the batches
    that succeeded, in order; [errors] holds one message per failed batch,
    in order, and each message contains [Batch <i+1> ], the batch's
    [startLine-endLine] and the underlying message. No batches give no
    results and no errors; when all [N] batches fail there are no results
    and [N] errors. *)
Theorem processBatchesWithErrorHandling_spec (ClientState : Type)
    (analyzeJSVMP : ClientState -> string -> ClientState * result string)
    (JSON_parse : string -> result json) (s : ClientState) (batches : list BatchInfo) :
  let os := outcomes ClientState analyzeJSVMP JSON_parse s batches in
  let out := processBatchesWithErrorHandling ClientState analyzeJSVMP JSON_parse s batches in
  length os = length batches /\
  fst out = ok_results os /\
  snd out = error_entries 0 batches os /\
  (forall m, In m (snd out) ->
     exists i b e, nth_error batches i = Some b /\ nth_error os i = Some (Err e) /\
       m = batchErrorMessage i b e /\
       contains ("Batch " +++ nat_to_string (S i) +++ " ") m = true /\
       contains (jsint_to_string (startLine b) +++ "-" +++ jsint_to_string (endLine b)) m
         = true /\
       contains e m = true) /\
  (batches = [] -> fst out = [] /\ snd out = []) /\
  (Forall (fun o => exists e, o = Err e) os -> fst out = [] /\ length (snd out) = length batches).
Proof.
  intros os out.
  assert (Hout : out = (ok_results os, error_entries 0 batches os))
    by (unfold out, processBatchesWithErrorHandling; rewrite process_loop_eq; reflexivity).
  assert (Hl : length os = length batches) by apply outcomes_length.
  rewrite Hout. simpl. split; [exact Hl|]. split; [reflexivity|]. split; [reflexivity|].
  split; [|split].
  - intros m Hm. destruct (error_entries_In 0 batches os m Hm) as (k & b & e & Hb & Ho & ->).
    exists k, b, e. split; [exact Hb|]. split; [exact Ho|]. split; [reflexivity|].
    exact (batchErrorMessage_parts k b e).
  - intros ->. unfold os. split; reflexivity.
  - intros Hf. exact (error_entries_all_failed 0 batches os Hl Hf).
Qed.

End ProcessorFacts.

Module NumberFacts.

Lemma length_append (s t : string) :
  String.length (s +++ t) = (String.length s + String.length t)%nat.
Proof. induction s as [|c s IH]; simpl; auto. Qed.

Fixpoint digits_ok (s : string) : bool :=
  match s with
  | EmptyString => true
  | String c s' => match digit_value c with Some _ => digits_ok s' | None => false end
  end.

Lemma N_to_string_aux_acc (fuel : nat) : forall n acc,
  N_to_string_aux fuel n acc = N_to_string_aux fuel n "" +++ acc.
Proof.
  induction fuel as [|fuel IH]; intros n acc; simpl; [reflexivity|].
  destruct (N.ltb n 10); [reflexivity|].
  rewrite IH, (IH _ (String _ "")). rewrite StringFacts.append_assoc. reflexivity.
Qed.

Lemma digit_value_digit_char (d : N) : (d < 10)%N -> digit_value (digit_char d) = Some (Z.of_N d).
Proof.
  intros H. assert (Hd : d = 0%N \/ d = 1%N \/ d = 2%N \/ d = 3%N \/ d = 4%N \/ d = 5%N \/
                         d = 6%N \/ d = 7%N \/ d = 8%N \/ d = 9%N) by lia.
  repeat destruct Hd as [->|Hd]; try (subst; reflexivity).
Qed.

Lemma digits_prefix_app (s t : string) : forall c a,
  digits_ok s = true ->
  digits_prefix (s +++ t) c a
  = digits_prefix t (c + String.length s) (snd (digits_prefix s c a)).
Proof.
  induction s as [|ch s IH]; intros c a H; simpl.
  - now rewrite Nat.add_0_r.
  - simpl in H. destruct (digit_value ch); [|discriminate].
    rewrite IH by exact H. f_equal. lia.
Qed.

Lemma digits_prefix_ok (s : string) : forall c a,
  digits_ok s = true -> fst (digits_prefix s c a) = (c + String.length s)%nat.
Proof.
  induction s as [|ch s IH]; intros c a H; simpl.
  - lia.
  - simpl in H. destruct (digit_value ch); [|discriminate]. rewrite IH by exact H. lia.
Qed.

Lemma digits_ok_app (s t : string) :
  digits_ok (s +++ t) = digits_ok s && digits_ok t.
Proof.
  induction s as [|ch s IH]; simpl; auto.
  destruct (digit_value ch); auto.
Qed.

Lemma N_to_string_aux_digits (fuel : nat) : forall n,
  (n < 10 ^ N.of_nat fuel)%N -> fuel <> 0%nat ->
  let s := N_to_string_aux fuel n "" in
  digits_ok s = true /\ s <> "" /\ snd (digits_prefix s 0 0) = Z.of_N n /\
  (forall k, (1 <= k)%nat -> (n < 10 ^ N.of_nat k)%N -> (String.length s <= k)%nat).
Proof.
  induction fuel as [|fuel IH]; intros n Hn Hf; cbn [N_to_string_aux] in *.
  - contradiction.
  - rewrite N_to_string_aux_acc in *.
    destruct (N.ltb n 10) eqn:E.
    + apply N.ltb_lt in E. simpl.
      rewrite N.mod_small by exact E. rewrite digit_value_digit_char by exact E.
      repeat split; [discriminate|]. intros k Hk _. simpl. lia.
    + apply N.ltb_ge in E.
      assert (Hlt : (n / 10 < 10 ^ N.of_nat fuel)%N).
      { apply N.Div0.div_lt_upper_bound. rewrite Nat2N.inj_succ, N.pow_succ_r' in Hn. exact Hn. }
      assert (Hf' : fuel <> 0%nat) by (intros ->; simpl in Hn; lia).
      destruct (IH (n / 10)%N Hlt Hf') as (Hok & Hne & Hval & Hlen).
      set (s := N_to_string_aux fuel (n / 10) "") in *.
      assert (Hm : (n mod 10 < 10)%N) by (apply N.mod_lt; lia).
      assert (Hdok : digits_ok (String (digit_char (n mod 10)) "") = true).
      { simpl. now rewrite digit_value_digit_char. }
      repeat split.
      * rewrite digits_ok_app, Hok. exact Hdok.
      * destruct s; [contradiction|discriminate].
      * rewrite digits_prefix_app by exact Hok.
        destruct (digits_prefix s 0 0) as [c v]. cbn [snd] in Hval. subst v.
        cbn [digits_prefix]. rewrite digit_value_digit_char by exact Hm. cbn [snd].
        pose proof (N.div_mod n 10 ltac:(lia)). lia.
      * intros k Hk Hnk. rewrite length_append. simpl.
        destruct k as [|k]; [lia|].
        assert (k <> 0)%nat.
        { intros ->. simpl in Hnk. lia. }
        assert (String.length s <= k)%nat; [|lia].
        apply Hlen; [lia|]. apply N.Div0.div_lt_upper_bound.
        rewrite Nat2N.inj_succ, N.pow_succ_r' in Hnk. exact Hnk.
Qed.


Lemma size_nat_bound (p : positive) : (Npos p < 2 ^ N.of_nat (Pos.size_nat p))%N.
Proof.
  induction p as [p IH|p IH|]; cbn [Pos.size_nat].
  - rewrite Nat2N.inj_succ, N.pow_succ_r'. lia.
  - rewrite Nat2N.inj_succ, N.pow_succ_r'. lia.
  - reflexivity.
Qed.

Lemma N_to_string_fuel (n : N) : (n < 10 ^ N.of_nat (S (N.size_nat n)))%N.
Proof.
  destruct n as [|p]; [reflexivity|].
  pose proof (size_nat_bound p) as H. cbn [N.size_nat].
  rewrite Nat2N.inj_succ, N.pow_succ_r'.
  assert (2 ^ N.of_nat (Pos.size_nat p) <= 10 ^ N.of_nat (Pos.size_nat p))%N.
  { apply N.pow_le_mono_l. lia. }
  lia.
Qed.

(** [String(n)] of an integer of at most five digits: a non-empty string of
    at most five decimal digits whose value is [n]. *)
Lemma Z_to_string_digits (n : Z) : (0 <= n <= 99999)%Z ->
  let s := Z_to_string n in
  digits_ok s = true /\ s <> "" /\ snd (digits_prefix s 0 0) = n /\
  (String.length s <= 5)%nat.
Proof.
  intros Hn. unfold Z_to_string.
  destruct n as [|p|p]; [| |lia]; cbn [Z.to_N]; unfold N_to_string;
    match goal with
    | |- context [N_to_string_aux _ ?m ""] =>
        destruct (N_to_string_aux_digits _ m (N_to_string_fuel m) ltac:(discriminate))
          as (Hok & Hne & Hval & Hlen)
    end;
    repeat split; auto; apply Hlen; try lia; simpl; lia.
Qed.

Fixpoint all_not_ws (l : list ascii) : bool :=
  match l with
  | [] => true
  | c :: l' => negb (is_ws c) && all_not_ws l'
  end.

Lemma digit_not_ws (c : ascii) (d : Z) : digit_value c = Some d -> is_ws c = false.
Proof.
  unfold digit_value, is_ws. intros H.
  destruct (Nat.leb 48 (nat_of_ascii c) && Nat.leb (nat_of_ascii c) 57) eqn:E; [|discriminate].
  apply andb_true_iff in E. destruct E as [E1 E2].
  apply Nat.leb_le in E1. apply Nat.leb_le in E2.
  apply orb_false_iff. split.
  - apply Nat.eqb_neq. lia.
  - apply andb_false_iff. right. apply Nat.leb_gt. lia.
Qed.

Lemma digits_ok_not_ws (s : string) :
  digits_ok s = true -> all_not_ws (list_ascii_of_string s) = true.
Proof.
  induction s as [|c s IH]; simpl; auto.
  destruct (digit_value c) eqn:E; [|discriminate].
  intros H. rewrite (digit_not_ws c z E), IH; auto.
Qed.

Lemma all_not_ws_app (l l' : list ascii) :
  all_not_ws (l ++ l') = all_not_ws l && all_not_ws l'.
Proof. induction l as [|c l IH]; simpl; auto. rewrite IH. apply andb_assoc. Qed.

Lemma all_not_ws_rev (l : list ascii) : all_not_ws (rev l) = all_not_ws l.
Proof.
  induction l as [|c l IH]; simpl; auto.
  rewrite all_not_ws_app, IH. simpl. rewrite andb_true_r. apply andb_comm.
Qed.

Lemma drop_ws_not_ws (l : list ascii) : all_not_ws l = true -> drop_ws l = l.
Proof.
  destruct l as [|c l]; simpl; auto.
  destruct (is_ws c); simpl; auto. discriminate.
Qed.

Lemma drop_ws_spaces (k : nat) (l : list ascii) :
  drop_ws (list_ascii_of_string (spaces k) ++ l) = drop_ws l.
Proof. induction k as [|k IH]; simpl; auto. Qed.

Lemma list_ascii_of_string_append (s t : string) :
  list_ascii_of_string (s +++ t) = list_ascii_of_string s ++ list_ascii_of_string t.
Proof. induction s as [|c s IH]; simpl; auto. now rewrite IH. Qed.

Lemma trim_padStart (w : nat) (s : string) :
  digits_ok s = true -> trim (padStart w s) = s.
Proof.
  intros H. unfold trim, padStart.
  rewrite list_ascii_of_string_append, drop_ws_spaces.
  pose proof (digits_ok_not_ws s H) as Hw.
  rewrite (drop_ws_not_ws _ Hw).
  rewrite drop_ws_not_ws by now rewrite all_not_ws_rev.
  rewrite rev_involutive. apply string_of_list_ascii_of_string.
Qed.

Lemma trimStart_not_ws (c : ascii) (r : string) :
  is_ws c = false -> trimStart (String c r) = String c r.
Proof.
  intros H. unfold trimStart. simpl. rewrite H. simpl.
  now rewrite string_of_list_ascii_of_string.
Qed.

Lemma parseInt10_digits (s : string) :
  digits_ok s = true -> s <> "" -> parseInt10 s = JSInt (snd (digits_prefix s 0 0)).
Proof.
  intros Hok Hne. destruct s as [|c r]; [contradiction|].
  pose proof (digits_prefix_ok (String c r) 0 0 Hok) as Hc.
  simpl in Hok. destruct (digit_value c) as [d|] eqn:Ed; [|discriminate].
  unfold parseInt10. rewrite (trimStart_not_ws c r (digit_not_ws c d Ed)).
  destruct (digits_prefix (String c r) 0 0) as [cnt v] eqn:Edp.
  cbn [fst] in Hc. subst cnt. cbn [snd].
  destruct c as [[] [] [] [] [] [] [] []]; try discriminate;
    rewrite Edp; simpl; now destruct v.
Qed.

Lemma spaces_length (k : nat) : String.length (spaces k) = k.
Proof. induction k as [|k IH]; simpl; auto. Qed.

Lemma substring_append (a b : string) (n : nat) :
  String.length a = n -> substring 0 n (a +++ b) = a.
Proof.
  intros <-. induction a as [|c a IH]; simpl; [now destruct b | now rewrite IH].
Qed.

End NumberFacts.

Module BatchingExtra.
Import Batching NumberFacts.

(** [extractLineNumber] reads back the line number that [formatCodeLine]
    writes, for every line number from 0 to 99999, whatever the source
    position and the code text. *)
Theorem extractLineNumber_formatCodeLine (lineNumber : Z) (sourcePos code : string) :
  (0 <= lineNumber <= 99999)%Z ->
  extractLineNumber (formatCodeLine lineNumber sourcePos code) = JSInt lineNumber.
Proof.
  intros Hn. destruct (Z_to_string_digits lineNumber Hn) as (Hok & Hne & Hval & Hlen).
  unfold extractLineNumber, formatCodeLine.
  assert (H5 : String.length (padStart 5 (Z_to_string lineNumber)) = 5%nat).
  { unfold padStart. rewrite length_append, spaces_length. lia. }
  rewrite (substring_append _ _ _ H5), trim_padStart by exact Hok.
  rewrite parseInt10_digits by assumption. now rewrite Hval.
Qed.

End BatchingExtra.

Module FileFormatExtra.
Import Batching FileFormat NumberFacts.

Fixpoint count_newlines (s : string) : nat :=
  match s with
  | EmptyString => 0
  | String c s' => (if Ascii.eqb c "010"%char then 1 else 0) + count_newlines s'
  end.

Lemma split_newline_from_length (s : string) : forall current,
  length (split_newline_from s current) = S (count_newlines s).
Proof.
  induction s as [|c s IH]; intros current; simpl; auto.
  destruct (Ascii.eqb c "010"%char); simpl; rewrite IH; reflexivity.
Qed.

Lemma format_lines_length (pos : Z -> string) (codeLines : list string) : forall k,
  length (format_lines pos k codeLines) = length codeLines.
Proof. induction codeLines as [|c cs IH]; intros k; simpl; auto. Qed.

Section WithSmartFs.
Variable RawMap Consumer : Type.
Variable ensureBeautified : string -> result (string * option RawMap).
Variable truncateCodeHighPerf : string -> Q -> string.
Variable map_fields_present : RawMap -> bool.
Variable newSourceMapConsumer : RawMap -> result Consumer.
Variable originalPositionFor : Consumer -> Z -> option Z * option Z.

Lemma formatEntireFile_ok_inv (filePath : string) (charLimit : Q)
  (lines : list string) (totalLines : nat) :
  formatEntireFile RawMap Consumer ensureBeautified truncateCodeHighPerf map_fields_present
    newSourceMapConsumer originalPositionFor filePath charLimit = Ok (lines, totalLines) ->
  exists code rawMap sourcePos,
    ensureBeautified filePath = Ok (code, rawMap) /\
    lines = format_lines sourcePos 1 (split_newline (truncateCodeHighPerf code charLimit)) /\
    totalLines = length (split_newline (truncateCodeHighPerf code charLimit)).
Proof.
  unfold formatEntireFile. intros H.
  destruct (ensureBeautified filePath) as [[code rawMap]|e]; [|discriminate].
  exists code, rawMap.
  destruct rawMap as [m|];
    [destruct (map_fields_present m); [destruct (newSourceMapConsumer m) as [c|e]|]|];
    try discriminate; injection H as <- <-; eexists; repeat split.
Qed.

(** [formatEntireFile] yields one formatted line per line of the truncated
    code: [totalLines] is the number of ['\n'] in it plus one (so at least
    one, even for an empty file), and [lines] has [totalLines] entries. *)
Theorem formatEntireFile_line_count (filePath : string) (charLimit : Q)
  (lines : list string) (totalLines : nat) :
  formatEntireFile RawMap Consumer ensureBeautified truncateCodeHighPerf map_fields_present
    newSourceMapConsumer originalPositionFor filePath charLimit = Ok (lines, totalLines) ->
  exists code rawMap,
    ensureBeautified filePath = Ok (code, rawMap) /\
    totalLines = S (count_newlines (truncateCodeHighPerf code charLimit)) /\
    length lines = totalLines.
Proof.
  intros H. destruct (formatEntireFile_ok_inv _ _ _ _ H) as (code & rawMap & pos & He & -> & ->).
  exists code, rawMap. repeat split; auto.
  - apply split_newline_from_length.
  - apply format_lines_length.
Qed.

End WithSmartFs.
End FileFormatExtra.

Module CoverageExtra.
Import Batching FileFormat NumberFacts FileFormatExtra.

(** The batches [bs] cover the line numbers [next .. final] in order: each
    batch starts right after the previous one ends, and ends no earlier than
    it starts. *)
Fixpoint covers (next : Z) (bs : list BatchInfo) (final : Z) : Prop :=
  match bs with
  | [] => next = (final + 1)%Z
  | b :: rest =>
      exists e, startLine b = JSInt next /\ endLine b = JSInt e /\ (next <= e)%Z /\
                covers (e + 1) rest final
  end.

Lemma format_lines_app (pos : Z -> string) (a b : list string) : forall k,
  format_lines pos k (a ++ b) = format_lines pos k a ++ format_lines pos (k + Z.of_nat (length a)) b.
Proof.
  induction a as [|c a IH]; intros k; simpl.
  - now rewrite Z.add_0_r.
  - rewrite IH. do 3 f_equal. lia.
Qed.

Lemma format_lines_last (pos : Z -> string) (cs : list string) : forall k c d,
  last (format_lines pos k (c :: cs)) d
  = formatCodeLine (k + Z.of_nat (length cs)) (pos (k + Z.of_nat (length cs))%Z) (last (c :: cs) c).
Proof.
  induction cs as [|c' cs IH]; intros k c d; simpl.
  - now rewrite Z.add_0_r.
  - change (last (format_lines pos (k + 1) (c' :: cs)) d = formatCodeLine (k + Z.of_nat (S (length cs)))
      (pos (k + Z.of_nat (S (length cs)))%Z) (last (c' :: cs) c)).
    rewrite IH. rewrite (BatchingFacts.last_default c' cs c' c).
    replace (k + 1 + Z.of_nat (length cs))%Z with (k + Z.of_nat (S (length cs)))%Z by lia.
    reflexivity.
Qed.

Lemma app_inj_length {A} (a b c d : list A) :
  length a = length c -> a ++ b = c ++ d -> a = c /\ b = d.
Proof.
  revert c. induction a as [|x a IH]; intros c Hl H; destruct c as [|y c]; simpl in *;
    try discriminate; auto.
  injection H as -> H. destruct (IH c ltac:(lia) H) as [-> ->]. auto.
Qed.

Section WithEncoding.
Variable encode_len : string -> nat.

Lemma batches_of_covers (pos : Z -> string) (lbs : list (list string)) : forall k cs,
  Forall (fun b => b <> []) lbs ->
  concat lbs = format_lines pos k cs ->
  (1 <= k)%Z -> (k + Z.of_nat (length cs) - 1 <= 99999)%Z ->
  covers k (batches_of encode_len lbs) (k + Z.of_nat (length cs) - 1).
Proof.
  induction lbs as [|b lbs IH]; intros k cs Hne Hc Hk Hmax; simpl in *.
  - destruct cs; [simpl; lia | discriminate].
  - inversion Hne as [|? ? Hb Hne']; subst.
    destruct b as [|first others]; [contradiction|].
    assert (Hlen : (length (first :: others) <= length cs)%nat).
    { rewrite <- (format_lines_length pos cs k), <- Hc, length_app. lia. }
    rewrite <- (firstn_skipn (length (first :: others)) cs) in Hc.
    rewrite format_lines_app in Hc.
    apply app_inj_length in Hc;
      [|rewrite format_lines_length, length_firstn; cbn [length] in *; lia].
    destruct Hc as [Hb1 Hrest].
    set (m := length (first :: others)) in *.
    destruct (firstn m cs) as [|c0 cs0] eqn:Ef; [discriminate|].
    assert (Hm : length (c0 :: cs0) = m).
    { rewrite <- Ef, length_firstn. lia. }
    simpl in Hb1. injection Hb1 as Hfirst Hothers.
    exists (k + Z.of_nat (length cs0))%Z. repeat split.
    + cbn [startLine]. rewrite Hfirst. apply BatchingExtra.extractLineNumber_formatCodeLine. simpl in Hm. lia.
    + cbn [endLine]. rewrite Hothers, Hfirst.
      change (extractLineNumber (last (format_lines pos k (c0 :: cs0))
                (formatCodeLine k (pos k) c0)) =
              JSInt (k + Z.of_nat (length cs0))).
      rewrite format_lines_last. apply BatchingExtra.extractLineNumber_formatCodeLine.
      simpl in Hm. lia.
    + lia.
    + cbn [length] in Hrest.
      replace (k + Z.of_nat (length cs) - 1)%Z
        with (k + Z.of_nat (length cs0) + 1 + Z.of_nat (length (skipn m cs)) - 1)%Z.
      * apply IH; auto.
        -- rewrite Hrest. f_equal. lia.
        -- lia.
        -- rewrite length_skipn. simpl in Hm. lia.
      * rewrite length_skipn. simpl in Hm. lia.
Qed.

Lemma createBatches_format_lines (pos : Z -> string) (codeLines : list string) (maxTokens : Q) :
  codeLines <> [] -> (Z.of_nat (length codeLines) <= 99999)%Z -> 0 < maxTokens ->
  exists bs, createBatches encode_len (format_lines pos 1 codeLines) maxTokens = Ok bs /\
             covers 1 bs (Z.of_nat (length codeLines)).
Proof.
  intros Hne Hmax Hpos.
  unfold createBatches, Tokenizer.splitByTokenLimit.
  destruct codeLines as [|c cs]; [contradiction|].
  cbn [format_lines length Nat.eqb]. cbv iota.
  rewrite (TokenizerFacts.Qle_bool_false_of_lt _ Hpos).
  eexists; split; [reflexivity|].
  set (lines := formatCodeLine 1 (pos 1%Z) c :: format_lines pos (1 + 1) cs).
  assert (Hc := TokenizerFacts.split_loop_concat encode_len maxTokens lines [] [] 0).
  assert (Hn := TokenizerFacts.split_loop_nonempty encode_len maxTokens lines [] [] 0 (Forall_nil _)).
  cbn [concat app] in Hc.
  pose proof (batches_of_covers pos _ 1 (c :: cs) Hn Hc ltac:(lia) ltac:(lia)) as H.
  replace (1 + Z.of_nat (length (c :: cs)) - 1)%Z with (Z.of_nat (length (c :: cs))) in H by lia.
  exact H.
Qed.

End WithEncoding.

Section WithSmartFs.
Variable encode_len : string -> nat.
Variable RawMap Consumer : Type.
Variable ensureBeautified : string -> result (string * option RawMap).
Variable truncateCodeHighPerf : string -> Q -> string.
Variable map_fields_present : RawMap -> bool.
Variable newSourceMapConsumer : RawMap -> result Consumer.
Variable originalPositionFor : Consumer -> Z -> option Z * option Z.

(** For a file of at most 99999 lines and a positive token budget, the
    batches that [createBatches] builds from the lines of [formatEntireFile]
    cover the line numbers 1 to [totalLines] in order, without gap or
    overlap: the first starts at line 1, each next one starts right after
    the previous one ends, each ends no earlier than it starts, and the last
    ends at [totalLines]. *)
Theorem formatEntireFile_batches_cover (filePath : string) (charLimit maxTokens : Q)
  (lines : list string) (totalLines : nat) :
  formatEntireFile RawMap Consumer ensureBeautified truncateCodeHighPerf map_fields_present
    newSourceMapConsumer originalPositionFor filePath charLimit = Ok (lines, totalLines) ->
  (Z.of_nat totalLines <= 99999)%Z -> 0 < maxTokens ->
  exists bs, createBatches encode_len lines maxTokens = Ok bs /\
             covers 1 bs (Z.of_nat totalLines).
Proof.
  intros H Hmax Hpos.
  apply formatEntireFile_ok_inv in H. destruct H as (code & rawMap & pos & _ & -> & ->).
  apply createBatches_format_lines; [|lia|exact Hpos].
  intros E. pose proof (split_newline_from_length (truncateCodeHighPerf code charLimit) "") as Hl.
  unfold split_newline in E. rewrite E in Hl. discriminate.
Qed.

End WithSmartFs.
End CoverageExtra.

Module TokenizerExtra.
Import Tokenizer.

Section WithEncoding.
Variable encode_len : string -> nat.

(** The token count the loop computes for [line + '\n']. *)
Definition line_tokens (line : string) : Q :=
  inject_Z (Z.of_nat (encode_len (line +++ newline))).

Definition batch_tokens (batch : list string) : Q :=
  fold_right (fun line acc => line_tokens line + acc) 0 batch.

(** A batch within the budget: its lines' tokens add up to at most
    [maxTokens], or it is a single line that alone exceeds [maxTokens]. *)
Definition within_budget (maxTokens : Q) (batch : list string) : Prop :=
  batch_tokens batch <= maxTokens \/
  exists line, batch = [line] /\ maxTokens < line_tokens line.

(** Batch [b2] could not have been appended to [b1]: its first line does
    not fit in what [b1] leaves of the budget. *)
Definition closed_before (maxTokens : Q) (b1 b2 : list string) : Prop :=
  match b2 with
  | line :: _ => maxTokens < batch_tokens b1 + line_tokens line
  | [] => True
  end.

Fixpoint greedy (maxTokens : Q) (bs : list (list string)) : Prop :=
  match bs with
  | b1 :: rest =>
      match rest with
      | b2 :: _ => closed_before maxTokens b1 b2 /\ greedy maxTokens rest
      | [] => True
      end
  | [] => True
  end.

Lemma line_tokens_nonneg (line : string) : 0 <= line_tokens line.
Proof.
  unfold line_tokens. change 0 with (inject_Z 0). rewrite <- Zle_Qle. lia.
Qed.

Lemma batch_tokens_nonneg (b : list string) : 0 <= batch_tokens b.
Proof.
  induction b as [|l b IH]; simpl; [apply Qle_refl|].
  pose proof (line_tokens_nonneg l). lra.
Qed.

Lemma batch_tokens_snoc (b : list string) (l : string) :
  batch_tokens (b ++ [l]) == batch_tokens b + line_tokens l.
Proof. induction b as [|x b IH]; simpl; [lra|]. rewrite IH. lra. Qed.

Lemma greedy_snoc_cons (maxTokens : Q) (X : list (list string)) : forall x b c,
  greedy maxTokens (x :: X ++ [b]) -> closed_before maxTokens b c ->
  greedy maxTokens (x :: X ++ [b; c]).
Proof.
  induction X as [|y X IH]; intros x b c H Hc; simpl in *.
  - tauto.
  - destruct H as [Hxy H]. split; [exact Hxy|]. apply IH; auto.
Qed.

Lemma greedy_snoc (maxTokens : Q) (X : list (list string)) (b c : list string) :
  greedy maxTokens (X ++ [b]) -> closed_before maxTokens b c ->
  greedy maxTokens (X ++ [b; c]).
Proof.
  destruct X as [|x X]; simpl; intros H Hc.
  - tauto.
  - apply greedy_snoc_cons; auto.
Qed.

Lemma greedy_extend_last_cons (maxTokens : Q) (X : list (list string)) : forall x c l,
  c <> [] -> greedy maxTokens (x :: X ++ [c]) -> greedy maxTokens (x :: X ++ [c ++ [l]]).
Proof.
  induction X as [|y X IH]; intros x c l Hc H; simpl in *.
  - destruct c as [|c0 c]; [contradiction|]. exact H.
  - destruct H as [Hxy H]. split; [exact Hxy|]. apply IH; auto.
Qed.

Lemma greedy_extend_last (maxTokens : Q) (X : list (list string)) (c : list string) (l : string) :
  c <> [] -> greedy maxTokens (X ++ [c]) -> greedy maxTokens (X ++ [c ++ [l]]).
Proof.
  destruct X as [|x X]; simpl; intros Hc H; auto.
  apply greedy_extend_last_cons; auto.
Qed.

(** The state of the loop: the batches pushed so far, and the open batch. *)
Definition pending (batches : list (list string)) (currentBatch : list string)
  : list (list string) :=
  if Nat.ltb 0 (length currentBatch) then batches ++ [currentBatch] else batches.

Definition loop_inv (maxTokens : Q) (batches : list (list string))
    (currentBatch : list string) (currentTokenCount : Q) : Prop :=
  currentTokenCount == batch_tokens currentBatch /\
  batch_tokens currentBatch <= maxTokens /\
  Forall (within_budget maxTokens) batches /\
  greedy maxTokens (pending batches currentBatch) /\
  (currentBatch = [] -> batches = [] \/ maxTokens < batch_tokens (last batches [])).

Lemma greedy_push (maxTokens : Q) (batches : list (list string)) (b : list string) :
  greedy maxTokens batches ->
  (batches = [] \/ closed_before maxTokens (last batches []) b) ->
  greedy maxTokens (batches ++ [b]).
Proof.
  intros H Hc. destruct batches as [|x X] using rev_ind; [simpl; auto|].
  clear IHX. rewrite last_last in Hc. destruct Hc as [Hc|Hc].
  - destruct X; discriminate.
  - rewrite <- app_assoc. apply greedy_snoc; auto.
Qed.

Lemma closed_before_big (maxTokens : Q) (b1 b2 : list string) :
  maxTokens < batch_tokens b1 -> closed_before maxTokens b1 b2.
Proof.
  intros H. destruct b2 as [|l b2]; simpl; auto.
  pose proof (line_tokens_nonneg l). lra.
Qed.

Lemma closed_before_line (maxTokens : Q) (b1 : list string) (l : string) (b2 : list string) :
  maxTokens < line_tokens l -> closed_before maxTokens b1 (l :: b2).
Proof.
  intros H. simpl. pose proof (batch_tokens_nonneg b1). lra.
Qed.

Lemma split_loop_inv (maxTokens : Q) (lines : list string) :
  forall batches currentBatch currentTokenCount,
    loop_inv maxTokens batches currentBatch currentTokenCount ->
    let out := split_loop encode_len maxTokens lines batches currentBatch currentTokenCount in
    Forall (within_budget maxTokens) out /\ greedy maxTokens out.
Proof.
  induction lines as [|l lines IH];
    intros batches cur cnt (Hcnt & Hcur & Hall & Hg & Hlast); simpl.
  - fold (pending batches cur). split; [|exact Hg].
    unfold pending. destruct (Nat.ltb 0 (length cur)); auto.
    apply Forall_app. split; auto. constructor; auto. left. exact Hcur.
  - fold (line_tokens l).
    destruct (Qle_bool (line_tokens l) maxTokens) eqn:Et; simpl negb; cbv iota.
    + apply Qle_bool_iff in Et.
      destruct cur as [|c0 cur0].
      * (* the open batch is empty: start it with [l] *)
        rewrite andb_false_r. cbv iota. apply IH.
        unfold loop_inv, pending. simpl. rewrite Hcnt. simpl.
        repeat split; try lra; auto.
        apply greedy_push; [exact Hg|].
        destruct (Hlast eq_refl) as [->|Hb]; [left; reflexivity|].
        right. apply closed_before_big, Hb.
      * unfold pending in Hg. cbn [length Nat.ltb Nat.leb] in Hg |- *.
        rewrite andb_true_r.
        destruct (Qle_bool (cnt + line_tokens l) maxTokens) eqn:Ef; simpl negb; cbv iota.
        -- (* the line fits: it joins the open batch *)
           apply Qle_bool_iff in Ef. apply IH.
           unfold loop_inv, pending.
           rewrite length_app, Nat.add_comm. cbn [length Nat.ltb Nat.leb].
           split; [|split; [|split; [|split]]].
           ++ rewrite batch_tokens_snoc, Hcnt. reflexivity.
           ++ rewrite batch_tokens_snoc, <- Hcnt. exact Ef.
           ++ exact Hall.
           ++ apply greedy_extend_last; [discriminate | exact Hg].
           ++ intros E. discriminate.
        -- (* the line does not fit: the open batch is pushed *)
           apply IH. unfold loop_inv, pending. cbn [length Nat.ltb Nat.leb].
           assert (Hnf : maxTokens < cnt + line_tokens l).
           { apply Qnot_le_lt. intros Hle. apply Qle_bool_iff in Hle. congruence. }
           split; [|split; [|split; [|split]]].
           ++ simpl. lra.
           ++ simpl. lra.
           ++ apply Forall_app. split; auto. constructor; auto. left. exact Hcur.
           ++ rewrite <- app_assoc. apply greedy_snoc; [exact Hg|].
              simpl. rewrite <- Hcnt. exact Hnf.
           ++ discriminate.
    + (* an oversized line gets a batch of its own *)
      assert (Hbig : maxTokens < line_tokens l).
      { apply Qnot_le_lt. intros Hle. apply Qle_bool_iff in Hle. congruence. }
      pose proof (batch_tokens_nonneg cur) as Hnn.
      destruct (Nat.ltb 0 (length cur)) eqn:Hlen; cbv iota.
      * apply IH. unfold loop_inv, pending in *. rewrite Hlen in Hg. cbn [length Nat.ltb Nat.leb].
        split; [|split; [|split; [|split]]].
        -- simpl. lra.
        -- simpl. lra.
        -- apply Forall_app. split; [apply Forall_app; split; auto|].
           ++ constructor; auto. left. exact Hcur.
           ++ constructor; auto. right. eauto.
        -- rewrite <- app_assoc. apply greedy_snoc; [exact Hg|].
           apply closed_before_line, Hbig.
        -- intros _. right. rewrite last_last. simpl. pose proof (line_tokens_nonneg l). lra.
      * assert (Hc : cur = []) by (destruct cur; [reflexivity|discriminate]).
        subst cur. apply IH. unfold loop_inv, pending in *. cbn [length Nat.ltb Nat.leb] in *.
        split; [|split; [|split; [|split]]].
        -- exact Hcnt.
        -- exact Hcur.
        -- apply Forall_app. split; auto. constructor; auto. right. eauto.
        -- apply greedy_push; [exact Hg|].
           destruct (Hlast eq_refl) as [->|Hb]; [left; reflexivity|].
           right. apply closed_before_line, Hbig.
        -- intros _. right. rewrite last_last. simpl. pose proof (line_tokens_nonneg l). lra.
Qed.

Lemma splitByTokenLimit_inv (lines : list string) (maxTokens : Q)
    (batches : list (list string)) :
  splitByTokenLimit encode_len lines maxTokens = Ok batches ->
  Forall (within_budget maxTokens) batches /\ greedy maxTokens batches.
Proof.
  unfold splitByTokenLimit. intros H.
  destruct (Nat.eqb (length lines) 0).
  - injection H as <-. simpl. auto.
  - destruct (Qle_bool maxTokens 0) eqn:E; [discriminate|].
    injection H as <-. apply split_loop_inv.
    assert (Hpos : 0 < maxTokens).
    { apply Qnot_le_lt. intros Hle. apply Qle_bool_iff in Hle. congruence. }
    unfold loop_inv, pending. simpl.
    split; [|split; [|split; [|split]]]; auto; lra.
Qed.

(** Every batch [splitByTokenLimit] returns keeps to the budget: the tokens
    of its lines (each counted with its ['\n']) add up to at most
    [maxTokens], unless the batch is a single line that alone exceeds
    [maxTokens]. *)
Theorem splitByTokenLimit_within_budget (lines : list string) (maxTokens : Q)
    (batches : list (list string)) :
  splitByTokenLimit encode_len lines maxTokens = Ok batches ->
  Forall (fun batch =>
            batch_tokens batch <= maxTokens \/
            exists line, batch = [line] /\ maxTokens < line_tokens line) batches.
Proof. intros H. exact (proj1 (splitByTokenLimit_inv lines maxTokens batches H)). Qed.

Lemma greedy_app_inv (maxTokens : Q) (pre : list (list string)) : forall b1 b2 post,
  greedy maxTokens (pre ++ b1 :: b2 :: post) -> closed_before maxTokens b1 b2.
Proof.
  induction pre as [|x pre IH]; intros b1 b2 post H; simpl in H.
  - tauto.
  - apply (IH b1 b2 post). destruct pre; simpl in *; tauto.
Qed.

(** [splitByTokenLimit] closes a batch only when the next line does not fit:
    for two consecutive batches, the tokens of the first plus those of the
    first line of the second exceed [maxTokens]. *)
Theorem splitByTokenLimit_greedy (lines : list string) (maxTokens : Q)
    (pre post : list (list string)) (b1 rest : list string) (line : string) :
  splitByTokenLimit encode_len lines maxTokens = Ok (pre ++ b1 :: (line :: rest) :: post) ->
  maxTokens < batch_tokens b1 + line_tokens line.
Proof.
  intros H. apply splitByTokenLimit_inv in H.
  exact (greedy_app_inv maxTokens pre b1 (line :: rest) post (proj2 H)).
Qed.

End WithEncoding.
End TokenizerExtra.

Module MergerExtra.
Import Merger MergerFacts.

Definition well_formed (r : DetectionRegion.t) : Prop :=
  DetectionRegion.start r <= DetectionRegion.end_ r.

Lemma le_start_trans (a b c : DetectionRegion.t) :
  le_start a b -> le_start b c -> le_start a c.
Proof. unfold le_start. apply Qle_trans. Qed.

Lemma Sorted_strongly (l : list DetectionRegion.t) :
  Sorted le_start l -> StronglySorted le_start l.
Proof. apply Sorted_StronglySorted. intros a b c. apply le_start_trans. Qed.

Lemma Sorted_snoc (l : list DetectionRegion.t) (x : DetectionRegion.t) :
  Sorted le_start l -> Forall (fun a => le_start a x) l -> Sorted le_start (l ++ [x]).
Proof.
  induction l as [|y l IH]; intros Hs Hf; simpl.
  - repeat constructor.
  - apply Sorted_inv in Hs. destruct Hs as [Hs Hh].
    inversion Hf as [|? ? Hyx Hf']; subst.
    constructor; [now apply IH|].
    destruct l as [|z l]; simpl; constructor; [exact Hyx|]. now inversion Hh.
Qed.

Lemma Sorted_app_l (l l' : list DetectionRegion.t) :
  Sorted le_start (l ++ l') -> Sorted le_start l.
Proof.
  induction l as [|y l IH]; intros Hs; simpl in *; [constructor|].
  apply Sorted_inv in Hs. destruct Hs as [Hs Hh]. constructor; [now apply IH|].
  destruct l as [|z l]; constructor. now inversion Hh.
Qed.

Lemma ForallOrdPairs_snoc (R : DetectionRegion.t -> DetectionRegion.t -> Prop)
  (l : list DetectionRegion.t) (x : DetectionRegion.t) :
  ForallOrdPairs R l -> Forall (fun a => R a x) l -> ForallOrdPairs R (l ++ [x]).
Proof.
  induction l as [|y l IH]; intros H Hf; simpl.
  - repeat constructor.
  - inversion H as [|? ? Hy Hl]; subst. inversion Hf as [|? ? Hyx Hf']; subst.
    constructor; [|now apply IH]. apply Forall_app. split; auto.
Qed.

Lemma ForallOrdPairs_app_l (R : DetectionRegion.t -> DetectionRegion.t -> Prop)
  (l l' : list DetectionRegion.t) :
  ForallOrdPairs R (l ++ l') -> ForallOrdPairs R l.
Proof.
  induction l as [|y l IH]; intros H; simpl in *; [constructor|].
  inversion H as [|? ? Hy Hl]; subst. constructor; [|now apply IH].
  apply Forall_app in Hy. tauto.
Qed.

Lemma ForallOrdPairs_after (R : DetectionRegion.t -> DetectionRegion.t -> Prop)
  (pre post : list DetectionRegion.t) (e : DetectionRegion.t) :
  ForallOrdPairs R (pre ++ e :: post) -> Forall (R e) post.
Proof.
  induction pre as [|y pre IH]; intros H; simpl in *.
  - now inversion H.
  - inversion H; subst. now apply IH.
Qed.

Lemma find_overlap_none_inv (x : DetectionRegion.t) (acc : list DetectionRegion.t) : forall i,
  find_overlap x acc i = None -> Forall (fun a => overlaps x a = false) acc.
Proof.
  induction acc as [|y acc IH]; intros i H; simpl in *; auto.
  destruct (overlaps x y) eqn:E; [discriminate|]. constructor; eauto.
Qed.

Lemma find_overlap_some_inv (x : DetectionRegion.t) (acc : list DetectionRegion.t) :
  forall i j e, find_overlap x acc i = Some (j, e) ->
  exists pre post, acc = pre ++ e :: post /\ j = (i + length pre)%nat /\
    Forall (fun a => overlaps x a = false) pre /\ overlaps x e = true.
Proof.
  induction acc as [|y acc IH]; intros i j e H; simpl in *; [discriminate|].
  destruct (overlaps x y) eqn:E.
  - injection H as <- <-. exists [], acc. simpl. repeat split; auto.
  - destruct (IH _ _ _ H) as (pre & post & -> & -> & Hp & Ho).
    exists (y :: pre), post. simpl. repeat split; auto.
Qed.

Lemma replace_nth_last {A} (pre : list A) (e x : A) :
  replace_nth (length pre) x (pre ++ [e]) = pre ++ [x].
Proof. induction pre as [|y pre IH]; simpl; [reflexivity | now rewrite IH]. Qed.

(** In a sorted list of pairwise disjoint well-formed regions that all start
    no later than [x], a region [x] overlaps can only be the last one. *)
Lemma overlap_is_last (acc pre post : list DetectionRegion.t) (x e : DetectionRegion.t) :
  acc = pre ++ e :: post ->
  Sorted le_start acc -> ForallOrdPairs disjoint acc -> Forall well_formed acc ->
  Forall (fun a => le_start a x) acc -> overlaps x e = true -> post = [].
Proof.
  intros -> Hs Hd Hw Hx Ho.
  destruct post as [|y post]; [reflexivity|exfalso].
  apply ForallOrdPairs_after in Hd. inversion Hd as [|? ? Hey _]; subst.
  apply Sorted_strongly in Hs.
  assert (Hle : le_start e y).
  { clear -Hs. induction pre as [|z pre IH]; simpl in Hs.
    - apply StronglySorted_inv in Hs. destruct Hs as [_ Hf]. now inversion Hf.
    - apply StronglySorted_inv in Hs. now apply IH. }
  assert (Hwy : well_formed y).
  { apply (proj1 (Forall_forall _ _) Hw). apply in_or_app. right. right. now left. }
  assert (Hyx : le_start y x).
  { apply (proj1 (Forall_forall _ _) Hx). apply in_or_app. right. right. now left. }
  unfold disjoint, overlaps in Hey. unfold overlaps in Ho. unfold le_start, well_formed in *.
  apply andb_true_iff in Ho. destruct Ho as [Ho1 Ho2]. apply Qle_bool_iff in Ho1.
  apply andb_false_iff in Hey. destruct Hey as [Hey|Hey].
  - apply Qle_bool_false_lt in Hey. apply (Qlt_not_le _ _ Hey). eapply Qle_trans; eauto.
  - apply Qle_bool_false_lt in Hey. apply (Qlt_not_le _ _ Hey).
    eapply Qle_trans; eauto.
Qed.

Lemma dedup_inv (l : list DetectionRegion.t) : forall acc,
  Sorted le_start acc -> ForallOrdPairs disjoint acc -> Forall well_formed acc ->
  Forall (fun a => Forall (le_start a) l) acc ->
  Sorted le_start l -> Forall well_formed l ->
  let out := fold_left dedup_step l acc in
  Sorted le_start out /\ ForallOrdPairs disjoint out /\ incl out (acc ++ l).
Proof.
  induction l as [|x l IH]; intros acc Hs Hd Hw Hle Hsl Hwl; simpl.
  - rewrite app_nil_r. repeat split; auto. apply incl_refl.
  - apply Sorted_strongly in Hsl as Hss. apply StronglySorted_inv in Hss.
    destruct Hss as [_ Hxl]. apply Sorted_inv in Hsl. destruct Hsl as [Hsl _].
    inversion Hwl as [|? ? Hwx Hwl']; subst.
    assert (Hax : Forall (fun a => le_start a x) acc).
    { eapply Forall_impl; [|exact Hle]. intros a Ha. now inversion Ha. }
    assert (Hal : Forall (fun a => Forall (le_start a) l) acc).
    { eapply Forall_impl; [|exact Hle]. intros a Ha. now inversion Ha. }
    assert (Hstep : Sorted le_start (dedup_step acc x) /\
                    ForallOrdPairs disjoint (dedup_step acc x) /\
                    Forall well_formed (dedup_step acc x) /\
                    Forall (fun a => Forall (le_start a) l) (dedup_step acc x) /\
                    incl (dedup_step acc x) (acc ++ [x])).
    { unfold dedup_step. destruct (find_overlap x acc 0) as [[j e]|] eqn:Ef.
      - destruct (find_overlap_some_inv _ _ _ _ _ Ef) as (pre & post & Eacc & -> & Hpre & Ho).
        assert (Hpost := overlap_is_last _ _ _ _ _ Eacc Hs Hd Hw Hax Ho). subst post acc.
        destruct (Z.gtb _ _).
        + simpl. rewrite replace_nth_last.
          repeat split.
          * apply Sorted_snoc; [eapply Sorted_app_l; eauto|].
            apply Forall_app in Hax. tauto.
          * apply ForallOrdPairs_snoc; [eapply ForallOrdPairs_app_l; eauto|].
            eapply Forall_impl; [|exact Hpre]. intros a Ha. unfold disjoint.
            now rewrite overlaps_sym.
          * apply Forall_app in Hw. apply Forall_app. split; [tauto|]. auto.
          * apply Forall_app in Hal. apply Forall_app. split; [tauto|]. auto.
          * intros a Ha. apply in_app_or in Ha. apply in_or_app.
            destruct Ha as [Ha|[<-|[]]]; [left; apply in_or_app; now left|].
            right. now left.
        + repeat split; auto. apply incl_appl, incl_refl.
      - apply find_overlap_none_inv in Ef.
        repeat split.
        + now apply Sorted_snoc.
        + apply ForallOrdPairs_snoc; auto.
          eapply Forall_impl; [|exact Ef]. intros a Ha. unfold disjoint.
          now rewrite overlaps_sym.
        + apply Forall_app. auto.
        + apply Forall_app. split; auto.
        + apply incl_refl. }
    destruct Hstep as (Hs' & Hd' & Hw' & Hle' & Hincl).
    destruct (IH (dedup_step acc x) Hs' Hd' Hw' Hle' Hsl Hwl') as (Ho1 & Ho2 & Ho3).
    repeat split; auto.
    intros a Ha. apply Ho3 in Ha. apply in_app_or in Ha. destruct Ha as [Ha|Ha].
    + apply Hincl in Ha. apply in_app_or in Ha. apply in_or_app.
      destruct Ha as [Ha|[<-|[]]]; [now left|right; now left].
    + apply in_or_app. right. now right.
Qed.

(** When at least two detection results are merged and every input region
    has [start <= end], the merged regions are sorted by [start], no two of
    them overlap, and each of them is one of the input regions. *)
Theorem mergeDetectionResults_sorted_disjoint (results : list DetectionResult.t) :
  (2 <= length results)%nat ->
  Forall well_formed (concat (map DetectionResult.regions results)) ->
  let merged := DetectionResult.regions (mergeDetectionResults results) in
  Sorted le_start merged /\ ForallOrdPairs disjoint merged /\
  incl merged (concat (map DetectionResult.regions results)).
Proof.
  intros Hlen Hw. cbv zeta. rewrite merge_regions_multi by exact Hlen.
  set (all := concat (map DetectionResult.regions results)) in *.
  pose proof (sort_by_start_perm all) as Hp.
  destruct (dedup_inv (sort_by_start all) [] (Sorted_nil _) (FOP_nil _) (Forall_nil _)
              (Forall_nil _) (sort_by_start_sorted all)
              (Permutation_Forall Hp Hw)) as (H1 & H2 & H3).
  repeat split; auto.
  intros a Ha. apply H3 in Ha. simpl in Ha. now apply (Permutation_in _ (Permutation_sym Hp)).
Qed.

End MergerExtra.

Module ParserExtra.
Import Parser ParserSpec ParserFacts.

(** *** Error messages *)

Lemma parseRegion_err_prefix (i : nat) (r : json) (m : string) :
  parseRegion i r = Err m -> exists rest, m = invalid +++ rest.
Proof.
  intros H. destruct r as [| | | | xs | fs]; unfold parseRegion in H;
    destruct_region_matches H; try discriminate H;
    apply Err_inj in H; subst m; eexists; reflexivity.
Qed.

Lemma parseRegions_err_prefix (i : nat) (rs : list json) (m : string) :
  parseRegions i rs = Err m -> exists rest, m = invalid +++ rest.
Proof.
  intros H. destruct (parseRegions_err_inv i rs m H) as (k & r & _ & Hr).
  exact (parseRegion_err_prefix _ _ _ Hr).
Qed.

Lemma parseParsed_err_prefix (v : json) (m : string) :
  parseParsed v = Err m -> exists rest, m = invalid +++ rest.
Proof.
  intros H. destruct v as [| | | | xs | fs]; unfold parseParsed in H;
    destruct_parsed_matches H; try discriminate H;
    try (apply Err_inj in H; subst m; eexists; reflexivity).
  all: match goal with
       | E : parseRegions 0 _ = Err _ |- _ =>
           apply Err_inj in H; subst m; exact (parseRegions_err_prefix _ _ _ E)
       end.
Qed.

Section WithJsonParse.
Variable JSON_parse : string -> result json.

(** Every error [parseDetectionResult] throws is either the JSON syntax
    error behind the prefix ["无法解析 LLM 响应: "], or a message that starts
    with ["LLM 响应格式无效，"]. *)
Theorem parseDetectionResult_error_prefix (jsonString m : string) :
  parseDetectionResult JSON_parse jsonString = Err m ->
  (exists e, JSON_parse jsonString = Err e /\ m = "无法解析 LLM 响应: " +++ e) \/
  (exists rest, m = "LLM 响应格式无效，" +++ rest).
Proof.
  unfold parseDetectionResult. intros H.
  destruct (JSON_parse jsonString) as [parsed|e].
  - right. exact (parseParsed_err_prefix parsed m H).
  - left. exists e. split; [reflexivity|]. now apply Err_inj in H.
Qed.

End WithJsonParse.

(** *** Fields the parser reads *)

Definition region_keys : list string :=
  ["start_line"; "start"; "end_line"; "end"; "type"; "confidence"; "description";
   "vm_components"; "debugging_entry_point"].

(** Two array elements the region loop cannot tell apart: equal, or two
    objects that agree on every key of [region_keys]. *)
Definition region_same (r1 r2 : json) : Prop :=
  r1 = r2 \/
  (is_object_value r1 /\ is_object_value r2 /\
   forall k, In k region_keys -> get r1 k = get r2 k).

Definition regions_same (o1 o2 : option json) : Prop :=
  o1 = o2 \/
  exists l1 l2, o1 = Some (JArr l1) /\ o2 = Some (JArr l2) /\ Forall2 region_same l1 l2.

Lemma parseRegion_region_same (i : nat) (r1 r2 : json) :
  region_same r1 r2 -> parseRegion i r1 = parseRegion i r2.
Proof.
  intros [<-|(H1 & H2 & H)]; [reflexivity|].
  assert (G : forall k, In k region_keys -> get r1 k = get r2 k) by exact H.
  destruct r1 as [| | | | xs1 | fs1]; try contradiction;
    destruct r2 as [| | | | xs2 | fs2]; try contradiction;
    unfold parseRegion, parseVMComponents, parseDebuggingEntryPoint; cbn beta iota;
    rewrite (G "start_line"), (G "start"), (G "end_line"), (G "end"), (G "type"),
      (G "confidence"), (G "description"), (G "vm_components"), (G "debugging_entry_point")
      by (simpl; tauto);
    reflexivity.
Qed.

(** [parseDetectionResult] reads nothing of the parsed object but
    [summary], [global_bytecode] and [regions], and nothing of a region but
    [start_line], [start], [end_line], [end], [type], [confidence],
    [description], [vm_components] and [debugging_entry_point]: two parsed
    objects that agree on these give the same result or the same error. *)
Theorem parseParsed_reads_only (v1 v2 : json) :
  is_object_value v1 -> is_object_value v2 ->
  get v1 "summary" = get v2 "summary" ->
  get v1 "global_bytecode" = get v2 "global_bytecode" ->
  regions_same (get v1 "regions") (get v2 "regions") ->
  parseParsed v1 = parseParsed v2.
Proof.
  intros H1 H2 Hs Hg Hr.
  assert (Hreg : forall x,
    match get v1 "regions" with
    | Some (JArr regions) =>
        match parseRegions 0 regions with
        | Err e => Err e
        | Ok validatedRegions =>
            Ok {| DetectionResult.summary := x;
                  DetectionResult.global_bytecode := parseGlobalBytecode v1;
                  DetectionResult.regions := validatedRegions |}
        end
    | _ => Err (invalid +++ "缺少必需字段: regions")
    end =
    match get v2 "regions" with
    | Some (JArr regions) =>
        match parseRegions 0 regions with
        | Err e => Err e
        | Ok validatedRegions =>
            Ok {| DetectionResult.summary := x;
                  DetectionResult.global_bytecode := parseGlobalBytecode v2;
                  DetectionResult.regions := validatedRegions |}
        end
    | _ => Err (invalid +++ "缺少必需字段: regions")
    end).
  { intros x. assert (Hgb : parseGlobalBytecode v1 = parseGlobalBytecode v2).
    { unfold parseGlobalBytecode. now rewrite Hg. }
    rewrite Hgb.
    destruct Hr as [Hr|(l1 & l2 & E1 & E2 & Hf)]; [now rewrite Hr|].
    rewrite E1, E2. rewrite (parseRegions_ext 0 l1 l2); [reflexivity|].
    eapply Forall2_impl; [|exact Hf]. intros a b Hab j. now apply parseRegion_region_same. }
  destruct v1 as [| | | | xs1 | fs1]; try contradiction;
    destruct v2 as [| | | | xs2 | fs2]; try contradiction;
    unfold parseParsed; cbn beta iota zeta; rewrite <- Hs;
    match goal with
    | |- context [get ?v "summary"] => destruct (get v "summary") as [[| | | | xs | fs]|]
    end; try reflexivity;
    try apply Hreg;
    repeat match goal with
    | |- context [as_string (get ?o ?k)] => destruct (as_string (get o k))
    end; try reflexivity; apply Hreg.
Qed.

(** *** The validated regions *)

Lemma parseRegions_nth (rs : list json) : forall k out,
  parseRegions k rs = Ok out ->
  length out = length rs /\
  forall i r, nth_error rs i = Some r ->
    exists x, nth_error out i = Some x /\ parseRegion (k + i) r = Ok x.
Proof.
  induction rs as [|r rs IH]; intros k out H; simpl in H.
  - injection H as <-. split; [reflexivity|]. intros i r E. destruct i; discriminate.
  - destruct (parseRegion k r) as [x|e] eqn:E1; [|discriminate].
    destruct (parseRegions (S k) rs) as [xs|e] eqn:E2; [|discriminate].
    injection H as <-. destruct (IH _ _ E2) as [Hl Hn].
    split; [simpl; now rewrite Hl|].
    intros [|i] r' E.
    + injection E as <-. exists x. rewrite Nat.add_0_r. auto.
    + destruct (Hn i r' E) as (x' & Ex & Hx). exists x'. split; [exact Ex|].
      now replace (k + S i)%nat with (S k + i)%nat by lia.
Qed.

Section WithJsonParse.
Variable JSON_parse : string -> result json.

(** A parsed result keeps every element of the [regions] array, in order:
    it has as many regions as the array, and its [i]-th region is what the
    validation of [regions[i]] (with index [i]) produced. *)
Theorem parseDetectionResult_regions_in_order (jsonString : string) (res : DetectionResult.t) :
  parseDetectionResult JSON_parse jsonString = Ok res ->
  exists parsed items,
    JSON_parse jsonString = Ok parsed /\ get parsed "regions" = Some (JArr items) /\
    length (DetectionResult.regions res) = length items /\
    forall i item, nth_error items i = Some item ->
      exists r, nth_error (DetectionResult.regions res) i = Some r /\ parseRegion i item = Ok r.
Proof.
  unfold parseDetectionResult. intros H.
  destruct (JSON_parse jsonString) as [parsed|e]; [|discriminate].
  destruct (parseParsed_ok_inv parsed res H) as (_ & _ & items & Hi & Hp).
  destruct (parseRegions_nth items 0 _ Hp) as [Hl Hn].
  exists parsed, items. repeat split; auto.
Qed.

End WithJsonParse.

End ParserExtra.

Module DispatcherExtra.
Import Batching FileFormat Processor Merger Dispatcher.

Section WithEnvironment.
Variable Config : Type.
Variable llmConfig : option Config.
Variable ClientState : Type.
Variable createLLMClient : Config -> result ClientState.
Variable analyzeJSVMP : ClientState -> string -> ClientState * result string.
Variable JSON_parse : string -> result json.
Variable existsSync : string -> bool.
Variable RawMap Consumer : Type.
Variable ensureBeautified : string -> result (string * option RawMap).
Variable truncateCodeHighPerf : string -> Q -> string.
Variable map_fields_present : RawMap -> bool.
Variable newSourceMapConsumer : RawMap -> result Consumer.
Variable originalPositionFor : Consumer -> Z -> option Z * option Z.
Variable encode_len : string -> nat.
Variable formatDetectionResultOutput : DetectionResult.t -> string -> nat -> nat -> string.

Let find := findJsvmpDispatcher Config llmConfig ClientState createLLMClient analyzeJSVMP
  JSON_parse existsSync RawMap Consumer ensureBeautified truncateCodeHighPerf map_fields_present
  newSourceMapConsumer originalPositionFor encode_len formatDetectionResultOutput.

Let format := formatEntireFile RawMap Consumer ensureBeautified truncateCodeHighPerf
  map_fields_present newSourceMapConsumer originalPositionFor.

(** With a configured LLM and an existing file that [formatEntireFile]
    reads, a [maxTokensPerBatch <= 0] always makes the detection fail with
    the tokenizer's message, and the totals are reported as 0: the formatted
    file has at least one line, so [splitByTokenLimit] throws, and the
    [catch] branch drops [totalLines]. *)
Theorem findJsvmpDispatcher_nonpositive_budget (filePath : string) (charLimitOpt : option Q)
  (maxTokensPerBatch : Q) (config : Config) (lines : list string) (totalLines : nat) :
  llmConfig = Some config -> existsSync filePath = true ->
  format filePath (match charLimitOpt with Some c => c | None => 300 end) = Ok (lines, totalLines) ->
  maxTokensPerBatch <= 0 ->
  find filePath charLimitOpt (Some maxTokensPerBatch)
  = JsvmpDetectionResult.mk false filePath 0 0 None None
      (Some "maxTokens must be a positive number") None.
Proof.
  intros Hc He Hf Hle. unfold find, findJsvmpDispatcher. rewrite Hc, He. cbv beta iota zeta.
  fold format. rewrite Hf.
  destruct (FileFormatExtra.formatEntireFile_line_count RawMap Consumer ensureBeautified
              truncateCodeHighPerf map_fields_present newSourceMapConsumer originalPositionFor
              _ _ _ _ Hf) as (code & rawMap & _ & Ht & Hl).
  unfold createBatches, Tokenizer.splitByTokenLimit.
  destruct lines as [|l0 ls]; [simpl in Hl; lia|].
  cbn [length Nat.eqb]. cbv iota.
  apply Qle_bool_iff in Hle. rewrite Hle. reflexivity.
Qed.

Lemma process_loop_lengths (s : ClientState) (i : nat) (batches : list BatchInfo) :
  forall results errors,
  let out := process_loop ClientState analyzeJSVMP JSON_parse s i batches results errors in
  (length (fst out) + length (snd out) = length results + length errors + length batches)%nat.
Proof.
  revert s i. induction batches as [|b bs IH]; intros s i results errors; simpl.
  - lia.
  - destruct (processBatch ClientState analyzeJSVMP JSON_parse s b) as [s' [r|e]];
      rewrite IH, length_app; simpl; lia.
Qed.

(** Once the batches are built and the client created, each batch ends as
    exactly one result or one error message: when no batch succeeds the
    detection fails with [partialErrors] holding [batchCount] messages,
    joined with ["; "] into [error]; otherwise it succeeds with the merged
    result, and [partialErrors] holds fewer than [batchCount] messages and
    is absent when there is none. *)
Theorem findJsvmpDispatcher_batch_accounting (filePath : string) (charLimitOpt maxTokensOpt : option Q)
  (config : Config) (lines : list string) (totalLines : nat) (batches : list BatchInfo)
  (client : ClientState) :
  llmConfig = Some config -> existsSync filePath = true ->
  format filePath (match charLimitOpt with Some c => c | None => 300 end) = Ok (lines, totalLines) ->
  createBatches encode_len lines (match maxTokensOpt with Some m => m | None => 8000 end) = Ok batches ->
  createLLMClient config = Ok client ->
  let out := find filePath charLimitOpt maxTokensOpt in
  JsvmpDetectionResult.totalLines out = totalLines /\ JsvmpDetectionResult.batchCount out = length batches /\
  ((JsvmpDetectionResult.success out = false /\
    exists errors, length errors = length batches /\
      JsvmpDetectionResult.partialErrors out = Some errors /\
      JsvmpDetectionResult.error out = Some ("所有批次处理失败: " +++ join "; " errors)) \/
   (JsvmpDetectionResult.success out = true /\ JsvmpDetectionResult.error out = None /\
    (exists merged, JsvmpDetectionResult.result out = Some merged) /\
    (JsvmpDetectionResult.partialErrors out = None \/
     exists errors, JsvmpDetectionResult.partialErrors out = Some errors /\ errors <> [] /\
       (length errors < length batches)%nat))).
Proof.
  intros Hc He Hf Hb Hcl. unfold find, findJsvmpDispatcher. rewrite Hc, He. cbv beta iota zeta.
  fold format. rewrite Hf, Hb, Hcl.
  unfold processBatchesWithErrorHandling.
  pose proof (process_loop_lengths client 0 batches [] []) as Hlen. simpl in Hlen.
  destruct (process_loop ClientState analyzeJSVMP JSON_parse client 0 batches [] [])
    as [results errors]. simpl in Hlen.
  destruct results as [|r rs]; cbn [negb JsvmpDetectionResult.totalLines JsvmpDetectionResult.batchCount
    JsvmpDetectionResult.success JsvmpDetectionResult.error JsvmpDetectionResult.result
    JsvmpDetectionResult.partialErrors].
  - split; [reflexivity|]. split; [reflexivity|]. left. split; [reflexivity|].
    exists errors. split; [simpl in Hlen; lia|]. split; reflexivity.
  - split; [reflexivity|]. split; [reflexivity|]. right.
    split; [reflexivity|]. split; [reflexivity|]. split; [eauto|].
    destruct errors as [|e es]; [now left|right].
    eexists. split; [reflexivity|]. split; [discriminate|]. simpl in *. lia.
Qed.

End WithEnvironment.
End DispatcherExtra.

Module LLMConfigExtra.
Import LLMConfig.

Lemma validateProvider_some (v : string) (p : LLMProvider) :
  validateProvider (Some v) = Some p <-> v = provider_name p.
Proof.
  unfold validateProvider. split.
  - destruct (String.eqb_spec v "openai"); [intros [= <-]; auto|].
    destruct (String.eqb_spec v "anthropic"); [intros [= <-]; auto|].
    destruct (String.eqb_spec v "google"); [intros [= <-]; auto|]. discriminate.
  - intros ->. destruct p; reflexivity.
Qed.

Lemma js_or_str_nonempty (a : option string) (b : string) :
  b <> ""%string -> js_or_str a b <> ""%string.
Proof.
  unfold js_or_str. destruct a as [s|]; [|auto].
  destruct (String.eqb_spec s ""); auto.
Qed.

Section WithEnvironment.
Variable env : string -> option string.
Variable toLowerCase : string -> string.

(** The provider that [LLM_PROVIDER] selects: [openai] when it is unset,
    otherwise the provider whose name is its lower-cased value. *)
Definition selected (p : LLMProvider) : Prop :=
  match env "LLM_PROVIDER" with
  | None => p = openai
  | Some s => toLowerCase s = provider_name p
  end.

(** A configuration is always for the selected provider, carries the
    non-empty value of that provider's API key variable, and has a non-empty
    model name: an empty [LLM_MODEL] or provider model variable falls
    through to the provider's default. *)
Theorem getLLMConfig_some (c : t) :
  getLLMConfig env toLowerCase = Some c ->
  selected (provider c) /\
  env (PROVIDER_ENV_KEYS_apiKey (provider c)) = Some (apiKey c) /\
  apiKey c <> ""%string /\ model c <> ""%string.
Proof.
  unfold getLLMConfig, selected.
  destruct (env "LLM_PROVIDER") as [s|] eqn:Ep; cbn [option_map].
  - destruct (validateProvider (Some (toLowerCase s))) as [p|] eqn:Ev; [|discriminate].
    apply validateProvider_some in Ev.
    destruct (env (PROVIDER_ENV_KEYS_apiKey p)) as [k|] eqn:Ek; [|discriminate].
    destruct (String.eqb_spec k ""); [discriminate|].
    intros [= <-]; cbn. repeat split; auto.
    apply js_or_str_nonempty. destruct p; discriminate.
  - cbn [validateProvider].
    destruct (env (PROVIDER_ENV_KEYS_apiKey openai)) as [k|] eqn:Ek; [|discriminate].
    destruct (String.eqb_spec k ""); [discriminate|].
    intros [= <-]; cbn. repeat split; auto.
    apply js_or_str_nonempty. discriminate.
Qed.

End WithEnvironment.
End LLMConfigExtra.


Lemma splitByTokenLimit_concat_witness :
  ["x = 1;"; "y = 2;"] <> [] /\ (0 < 1)%Q /\
  exists batches,
    Tokenizer.splitByTokenLimit String.length ["x = 1;"; "y = 2;"] 1 = Ok batches /\
    concat batches = ["x = 1;"; "y = 2;"] /\
    Forall (fun batch => batch <> [] /\ Forall (fun line => In line ["x = 1;"; "y = 2;"]) batch)
      batches.
Proof.
  split; [discriminate|]. split; [reflexivity|].
  apply (TokenizerFacts.splitByTokenLimit_concat String.length); [discriminate | reflexivity].
Defined.

(** C4 as stated fails: the empty array with [maxTokens = 0] gives [[]]. *)
Lemma splitByTokenLimit_empty_zero :
  Tokenizer.splitByTokenLimit (fun _ => 0%nat) [] 0 = Ok [].
Proof. reflexivity. Qed.

Lemma splitByTokenLimit_nonpositive_witness :
  (0 <= 0)%Q /\ ["x"] <> [] /\
  Tokenizer.splitByTokenLimit String.length ["x"] 0 = Err "maxTokens must be a positive number" /\
  Tokenizer.splitByTokenLimit String.length [] 5 = Ok [].
Proof.
  assert (H1 : (0 <= 0)%Q) by discriminate.
  assert (H2 : ["x"] <> []) by discriminate.
  split; [exact H1|]. split; [exact H2|]. split.
  - exact (proj1 (TokenizerFacts.splitByTokenLimit_nonpositive String.length ["x"] 0) H1 H2).
  - exact (proj2 (TokenizerFacts.splitByTokenLimit_nonpositive String.length [] 5) eq_refl).
Defined.

Lemma createBatches_six_digit_endLine_witness :
  (0 < 1)%Q /\
  exists pre b,
    Batching.createBatches String.length (Batching.file_lines 100000 "x") 1 = Ok (pre ++ [b]) /\
    Batching.endLine b = JSInt 10000 /\ Batching.endLine b <> JSInt 100000.
Proof.
  split; [reflexivity|].
  apply (BatchingFacts.createBatches_six_digit_endLine String.length 1). reflexivity.
Defined.

(** C1 as stated fails. Regions A = lines 20-30 (first input) and B = lines
    10-25 (second input), both [medium], overlap; the merge keeps B, the later
    one in combined input order, because sorting by [start] puts B first.
    And with both regions in a single input nothing is deduplicated. *)
Lemma mergeDetectionResults_tie_not_input_order :
  let A := DetectionRegion.mk 20%Q 30%Q SwitchDispatcher medium "A" None None in
  let B := DetectionRegion.mk 10%Q 25%Q SwitchDispatcher medium "B" None None in
  Merger.overlaps A B = true /\
  DetectionResult.regions
    (Merger.mergeDetectionResults
       [DetectionResult.mk (SummaryString "batch 1") None [A];
        DetectionResult.mk (SummaryString "batch 2") None [B]]) = [B] /\
  DetectionResult.regions
    (Merger.mergeDetectionResults
       [DetectionResult.mk (SummaryString "one batch") None [A; B]]) = [B; A].
Proof. vm_compute. repeat split. Qed.

Lemma mergeDetectionResults_overlapping_pair_witness :
  let A := DetectionRegion.mk 10%Q 20%Q IfElseDispatcher low "low" None None in
  let B := DetectionRegion.mk 20%Q 40%Q IfElseDispatcher high "high" None None in
  let results := [DetectionResult.mk (SummaryString "batch 1") None [A];
                  DetectionResult.mk (SummaryString "batch 2") None [B]] in
  (2 <= length results)%nat /\
  concat (map DetectionResult.regions results) = [A; B] /\
  Merger.overlaps A B = true /\
  DetectionResult.regions (Merger.mergeDetectionResults results) =
  (if Qle_bool (DetectionRegion.start A) (DetectionRegion.start B)
   then [if Z.gtb (Merger.confidenceOrder (DetectionRegion.confidence B))
                  (Merger.confidenceOrder (DetectionRegion.confidence A)) then B else A]
   else [if Z.gtb (Merger.confidenceOrder (DetectionRegion.confidence A))
                  (Merger.confidenceOrder (DetectionRegion.confidence B)) then A else B]).
Proof.
  intros A B results.
  assert (H1 : (2 <= length results)%nat) by (simpl; lia).
  assert (H2 : concat (map DetectionResult.regions results) = [A; B]) by reflexivity.
  assert (H3 : Merger.overlaps A B = true) by reflexivity.
  split; [exact H1|]. split; [exact H2|]. split; [exact H3|].
  exact (MergerFacts.mergeDetectionResults_overlapping_pair results A B H1 H2 H3).
Defined.

Lemma mergeDetectionResults_single_skips_dedup_witness :
  let First := DetectionRegion.mk 10%Q 20%Q SwitchDispatcher medium "First" None None in
  let Second := DetectionRegion.mk 15%Q 30%Q SwitchDispatcher medium "Second" None None in
  let r := DetectionResult.mk (SummaryString "one batch") None [First; Second] in
  let r' := DetectionResult.mk (SummaryString "empty batch") None [] in
  DetectionResult.regions r = [First; Second] /\ DetectionResult.regions r' = [] /\
  Merger.overlaps First Second = true /\
  DetectionResult.regions (Merger.mergeDetectionResults [r]) = Merger.sort_by_start [First; Second] /\
  length (DetectionResult.regions (Merger.mergeDetectionResults [r])) = 2%nat /\
  length (Merger.deduplicate (Merger.sort_by_start [First; Second])) = 1%nat /\
  length (DetectionResult.regions (Merger.mergeDetectionResults [r; r'])) = 1%nat.
Proof.
  intros First Second r r'.
  assert (H1 : DetectionResult.regions r = [First; Second]) by reflexivity.
  assert (H2 : DetectionResult.regions r' = []) by reflexivity.
  assert (H3 : Merger.overlaps First Second = true) by reflexivity.
  split; [exact H1|]. split; [exact H2|]. split; [exact H3|].
  exact (MergerFacts.mergeDetectionResults_single_skips_dedup r r' First Second H1 H2 H3).
Defined.

Lemma mergeDetectionResults_disjoint_witness :
  let A := DetectionRegion.mk 100%Q 120%Q InstructionArray high "A" None None in
  let B := DetectionRegion.mk 1%Q 20%Q SwitchDispatcher low "B" None None in
  let results := [DetectionResult.mk (SummaryString "batch 1") None [A];
                  DetectionResult.mk (SummaryString "batch 2") None [B]] in
  ForallOrdPairs MergerFacts.disjoint (concat (map DetectionResult.regions results)) /\
  length (DetectionResult.regions (Merger.mergeDetectionResults results))
  = length (concat (map DetectionResult.regions results)) /\
  Sorted MergerFacts.le_start (DetectionResult.regions (Merger.mergeDetectionResults results)).
Proof.
  intros A B results.
  assert (H : ForallOrdPairs MergerFacts.disjoint (concat (map DetectionResult.regions results))).
  { simpl. repeat constructor. }
  split; [exact H|].
  exact (MergerFacts.mergeDetectionResults_disjoint results H).
Defined.

(** C6 as stated fails: a region carrying [start_line: null],
    [end_line: null], [start: 5] and [end: 9] is parsed with the legacy
    values, because [??] treats [null] as absent. *)
Lemma parseDetectionResult_null_current_bounds :
  let fields := [("type", JStr "Switch Dispatcher"); ("confidence", JStr "high");
                 ("description", JStr "dispatcher loop")] in
  let doc := ParserSpec.with_region [("summary", JStr "one region")] [] []
               (ParserSpec.both_region JNull JNull (JNum 5) (JNum 9) fields) in
  exists res,
    Parser.parseDetectionResult (fun _ => Ok doc) "response" = Ok res /\
    map (fun x => (DetectionRegion.start x, DetectionRegion.end_ x))
        (DetectionResult.regions res) = [(5%Q, 9%Q)].
Proof. eexists. split; [vm_compute; reflexivity | reflexivity]. Qed.

Lemma parseDetectionResult_bound_names_witness :
  let fields := [("type", JStr "Switch Dispatcher"); ("confidence", JStr "high");
                 ("description", JStr "dispatcher loop")] in
  let doc r := ParserSpec.with_region [("summary", JStr "one region")] [] [] r in
  let parse t :=
    if String.eqb t "legacy" then Ok (doc (ParserSpec.legacy_region (JNum 5) (JNum 9) fields))
    else if String.eqb t "current" then
      Ok (doc (ParserSpec.current_region (JNum 5) (JNum 9) fields))
    else Ok (doc (ParserSpec.both_region (JNum 5) (JNum 9) (JNum 1) (JNum 2) fields)) in
  ParserSpec.bound_free fields /\
  ((forall t1 t2,
     parse t1 = Ok (doc (ParserSpec.legacy_region (JNum 5) (JNum 9) fields)) ->
     parse t2 = Ok (doc (ParserSpec.current_region (JNum 5) (JNum 9) fields)) ->
     Parser.parseDetectionResult parse t1 = Parser.parseDetectionResult parse t2) /\
  (JNum 5 <> JNull -> JNum 9 <> JNull -> forall t1 t2,
     parse t1 = Ok (doc (ParserSpec.both_region (JNum 5) (JNum 9) (JNum 1) (JNum 2) fields)) ->
     parse t2 = Ok (doc (ParserSpec.current_region (JNum 5) (JNum 9) fields)) ->
     Parser.parseDetectionResult parse t1 = Parser.parseDetectionResult parse t2) /\
  (forall t1 t2,
     parse t1 = Ok (doc (ParserSpec.both_region JNull JNull (JNum 1) (JNum 2) fields)) ->
     parse t2 = Ok (doc (ParserSpec.legacy_region (JNum 1) (JNum 2) fields)) ->
     Parser.parseDetectionResult parse t1 = Parser.parseDetectionResult parse t2)).
Proof.
  intros fields doc parse.
  assert (H : ParserSpec.bound_free fields) by (repeat constructor).
  split; [exact H|].
  exact (ParserFacts.parseDetectionResult_bound_names parse [("summary", JStr "one region")]
           fields [] [] (JNum 5) (JNum 9) (JNum 1) (JNum 2) H).
Defined.

(** C7 as stated fails: the response text [null] misses [summary] and
    [regions], yet the message names neither. *)
Lemma parseDetectionResult_null_names_no_field :
  ParserSpec.summary_bad JNull /\ ParserSpec.regions_bad JNull /\
  Parser.parseDetectionResult (fun _ => Ok JNull) "null" =
    Err (Parser.invalid +++ "期望对象类型") /\
  contains "summary" (Parser.invalid +++ "期望对象类型") = false /\
  contains "regions" (Parser.invalid +++ "期望对象类型") = false.
Proof. split; [exact I|]. split; [exact I|]. vm_compute. repeat split. Qed.

Lemma parseDetectionResult_errors_witness :
  let region := JObj [("start_line", JNum 10); ("end_line", JNum 20);
                      ("type", JStr "Loop"); ("confidence", JStr "high");
                      ("description", JStr "dispatcher loop")] in
  let v := JObj [("summary", JStr "one region"); ("regions", JArr [region])] in
  let parse (t : string) : result json :=
    if String.eqb t "response" then Ok v
    else if String.eqb t "42" then Ok (JNum 42)
    else Err "Unexpected token" in
  (parse "response" = Ok v /\
   ParserSpec.is_object_value v /\
   (ParserSpec.summary_bad v \/ ParserSpec.regions_bad v \/
    (exists rs r, get v "regions" = Some (JArr rs) /\ In r rs /\ ParserSpec.region_bad r)) /\
   exists m, Parser.parseDetectionResult parse "response" = Err m /\ m <> "" /\
             ParserSpec.names_offence v m) /\
  (parse "not json" = Err "Unexpected token" /\
   Parser.parseDetectionResult parse "not json"
   = Err ("无法解析 LLM 响应: " +++ "Unexpected token")) /\
  (parse "42" = Ok (JNum 42) /\ ~ ParserSpec.is_object_value (JNum 42) /\
   Parser.parseDetectionResult parse "42" = Err (Parser.invalid +++ "期望对象类型")).
Proof.
  intros region v parse.
  assert (H1 : parse "response" = Ok v) by reflexivity.
  assert (H2 : ParserSpec.is_object_value v) by exact I.
  assert (H3 : ParserSpec.summary_bad v \/ ParserSpec.regions_bad v \/
     (exists rs r, get v "regions" = Some (JArr rs) /\ In r rs /\ ParserSpec.region_bad r)).
  { right. right. exists [region], region. split; [reflexivity|]. split; [left; reflexivity|].
    do 6 right. left. exists "Loop". split; reflexivity. }
  assert (H4 : parse "not json" = Err "Unexpected token") by reflexivity.
  assert (H5 : parse "42" = Ok (JNum 42)) by reflexivity.
  assert (H6 : ~ ParserSpec.is_object_value (JNum 42)) by (intros H; exact H).
  split; [|split].
  - split; [exact H1|]. split; [exact H2|]. split; [exact H3|].
    exact (proj1 (ParserFacts.parseDetectionResult_errors parse "response") v H1 H2 H3).
  - split; [exact H4|].
    exact (proj1 (proj2 (ParserFacts.parseDetectionResult_errors parse "not json"))
             "Unexpected token" H4).
  - split; [exact H5|]. split; [exact H6|].
    exact (proj2 (proj2 (ParserFacts.parseDetectionResult_errors parse "42")) (JNum 42) H5 H6).
Defined.

Lemma parseDetectionResult_keeps_bounds_witness :
  let fields := [("type", JStr "Switch Dispatcher"); ("confidence", JStr "high");
                 ("description", JStr "dispatcher loop")] in
  let r1 := JObj (("start_line", JNum 50) :: ("end_line", JNum 10) :: fields) in
  let r2 := JObj (("start", JNum (5 # 2)) :: ("end", JNum (3 # 2)) :: fields) in
  let v := JObj [("summary", JStr "two regions"); ("regions", JArr [r1; r2])] in
  (fun _ : string => Ok v) "response" = Ok v /\
  ParserSpec.is_object_value v /\ ~ ParserSpec.summary_bad v /\
  get v "regions" = Some (JArr [r1; r2]) /\
  Forall (fun r => ~ ParserSpec.region_bad r) [r1; r2] /\
  exists res, Parser.parseDetectionResult (fun _ => Ok v) "response" = Ok res /\
              Forall2 ParserSpec.bounds_kept [r1; r2] (DetectionResult.regions res).
Proof.
  intros fields r1 r2 v.
  assert (H1 : (fun _ : string => Ok v) "response" = Ok v) by reflexivity.
  assert (H2 : ParserSpec.is_object_value v) by exact I.
  assert (H3 : ~ ParserSpec.summary_bad v) by (intros H; exact H).
  assert (H4 : get v "regions" = Some (JArr [r1; r2])) by reflexivity.
  assert (H5 : Forall (fun r => ~ ParserSpec.region_bad r) [r1; r2]).
  { repeat constructor; intros H; vm_compute in H;
      repeat destruct H as [H|H]; try (apply H; exact I); try discriminate H;
      destruct H as (t & Ht & Hv); injection Ht as <-; discriminate Hv. }
  split; [exact H1|]. split; [exact H2|]. split; [exact H3|]. split; [exact H4|].
  split; [exact H5|].
  exact (ParserFacts.parseDetectionResult_keeps_bounds (fun _ => Ok v) "response" v
           [r1; r2] H1 H2 H3 H4 H5).
Defined.

Lemma processBatchesWithErrorHandling_spec_witness :
  let analyze (n : nat) (_ : string) := (S n, @Err string "request timed out") in
  let batches := [Batching.mkBatchInfo (JSInt 1) (JSInt 40) "a" 10%nat;
                  Batching.mkBatchInfo (JSInt 41) (JSInt 80) "b" 10%nat] in
  let os := Processor.outcomes nat analyze (fun _ => Ok JNull) 0%nat batches in
  let out := Processor.processBatchesWithErrorHandling nat analyze (fun _ => Ok JNull) 0%nat batches in
  length os = length batches /\
  fst out = ProcessorSpec.ok_results os /\
  snd out = ProcessorSpec.error_entries 0%nat batches os /\
  (forall m, In m (snd out) ->
     exists i b e, nth_error batches i = Some b /\ nth_error os i = Some (Err e) /\
       m = Processor.batchErrorMessage i b e /\
       contains ("Batch " +++ nat_to_string (S i) +++ " ") m = true /\
       contains (jsint_to_string (Batching.startLine b) +++ "-" +++
                 jsint_to_string (Batching.endLine b)) m = true /\
       contains e m = true) /\
  (batches = [] -> fst out = [] /\ snd out = []) /\
  (Forall (fun o => exists e, o = Err e) os -> fst out = [] /\ length (snd out) = length batches).
Proof.
  intros analyze batches.
  exact (ProcessorFacts.processBatchesWithErrorHandling_spec nat analyze (fun _ => Ok JNull) 0%nat
           batches).
Defined.

Lemma extractLineNumber_formatCodeLine_witness :
  (0 <= 42 <= 99999)%Z /\
  Batching.extractLineNumber (Batching.formatCodeLine 42 "L3:14" "var a = 1;") = JSInt 42.
Proof.
  split; [lia|].
  apply (BatchingExtra.extractLineNumber_formatCodeLine 42 "L3:14" "var a = 1;"). lia.
Defined.

Lemma formatEntireFile_line_count_witness :
  let beautify (_ : string) := @Ok (string * option unit) ("a" +++ String "010" "b", None) in
  exists lines,
    FileFormat.formatEntireFile unit unit beautify (fun c _ => c) (fun _ => false)
      (fun _ => Ok tt) (fun _ _ => (None, None)) "app.js" 300 = Ok (lines, 2%nat) /\
    exists code rawMap, beautify "app.js" = Ok (code, rawMap) /\
      2%nat = S (FileFormatExtra.count_newlines code) /\ length lines = 2%nat.
Proof.
  intros beautify. eexists. split; [reflexivity|].
  apply (FileFormatExtra.formatEntireFile_line_count unit unit beautify (fun c _ => c)
           (fun _ => false) (fun _ => Ok tt) (fun _ _ => (None, None)) "app.js" 300).
  reflexivity.
Defined.

Lemma formatEntireFile_batches_cover_witness :
  let beautify (_ : string) := @Ok (string * option unit) ("a" +++ String "010" "b", None) in
  exists lines,
    FileFormat.formatEntireFile unit unit beautify (fun c _ => c) (fun _ => false)
      (fun _ => Ok tt) (fun _ _ => (None, None)) "app.js" 300 = Ok (lines, 2%nat) /\
    (Z.of_nat 2 <= 99999)%Z /\ 0 < 8 /\
    exists bs, Batching.createBatches String.length lines 8 = Ok bs /\
               CoverageExtra.covers 1 bs (Z.of_nat 2).
Proof.
  intros beautify. eexists.
  assert (H : FileFormat.formatEntireFile unit unit beautify (fun c _ => c) (fun _ => false)
      (fun _ => Ok tt) (fun _ _ => (None, None)) "app.js" 300 = Ok (_, 2%nat)) by reflexivity.
  split; [exact H|]. split; [lia|]. split; [reflexivity|].
  apply (CoverageExtra.formatEntireFile_batches_cover String.length unit unit beautify
           (fun c _ => c) (fun _ => false) (fun _ => Ok tt) (fun _ _ => (None, None))
           "app.js" 300 8 _ 2%nat H); [lia | reflexivity].
Defined.

Lemma splitByTokenLimit_within_budget_witness :
  exists batches,
    Tokenizer.splitByTokenLimit String.length ["ab"; "cde"; "f"; "ghijkl"] 6 = Ok batches /\
    Forall (fun batch =>
              TokenizerExtra.batch_tokens String.length batch <= 6 \/
              exists line, batch = [line] /\ 6 < TokenizerExtra.line_tokens String.length line)
           batches.
Proof.
  eexists.
  assert (H : Tokenizer.splitByTokenLimit String.length ["ab"; "cde"; "f"; "ghijkl"] 6 = Ok _)
    by reflexivity.
  split; [exact H|]. exact (TokenizerExtra.splitByTokenLimit_within_budget String.length _ _ _ H).
Defined.

Lemma splitByTokenLimit_greedy_witness :
  Tokenizer.splitByTokenLimit String.length ["ab"; "cde"; "f"] 6
    = Ok ([] ++ ["ab"] :: ("cde" :: ["f"]) :: []) /\
  6 < TokenizerExtra.batch_tokens String.length ["ab"]
      + TokenizerExtra.line_tokens String.length "cde".
Proof.
  assert (H : Tokenizer.splitByTokenLimit String.length ["ab"; "cde"; "f"] 6
              = Ok ([] ++ ["ab"] :: ("cde" :: ["f"]) :: [])) by reflexivity.
  split; [exact H|].
  exact (TokenizerExtra.splitByTokenLimit_greedy String.length ["ab"; "cde"; "f"] 6 [] []
           ["ab"] ["f"] "cde" H).
Defined.

Lemma mergeDetectionResults_sorted_disjoint_witness :
  let A := DetectionRegion.mk 100%Q 120%Q InstructionArray high "A" None None in
  let B := DetectionRegion.mk 1%Q 20%Q SwitchDispatcher low "B" None None in
  let C := DetectionRegion.mk 10%Q 30%Q SwitchDispatcher medium "C" None None in
  let results := [DetectionResult.mk (SummaryString "batch 1") None [A; C];
                  DetectionResult.mk (SummaryString "batch 2") None [B]] in
  (2 <= length results)%nat /\
  Forall MergerExtra.well_formed (concat (map DetectionResult.regions results)) /\
  let merged := DetectionResult.regions (Merger.mergeDetectionResults results) in
  Sorted MergerFacts.le_start merged /\ ForallOrdPairs MergerFacts.disjoint merged /\
  incl merged (concat (map DetectionResult.regions results)).
Proof.
  intros A B C results.
  assert (H1 : (2 <= length results)%nat) by (simpl; lia).
  assert (H2 : Forall MergerExtra.well_formed (concat (map DetectionResult.regions results))).
  { repeat constructor; unfold MergerExtra.well_formed; simpl; vm_compute; discriminate. }
  split; [exact H1|]. split; [exact H2|].
  exact (MergerExtra.mergeDetectionResults_sorted_disjoint results H1 H2).
Defined.

Lemma parseDetectionResult_error_prefix_witness :
  Parser.parseDetectionResult (fun _ => Err "Unexpected token") "not json"
    = Err ("无法解析 LLM 响应: " +++ "Unexpected token") /\
  ((exists e, (fun _ : string => @Err json "Unexpected token") "not json" = Err e /\
      "无法解析 LLM 响应: " +++ "Unexpected token" = "无法解析 LLM 响应: " +++ e) \/
   (exists rest, "无法解析 LLM 响应: " +++ "Unexpected token" = "LLM 响应格式无效，" +++ rest)).
Proof.
  assert (H : Parser.parseDetectionResult (fun _ => Err "Unexpected token") "not json"
    = Err ("无法解析 LLM 响应: " +++ "Unexpected token")) by reflexivity.
  split; [exact H|].
  exact (ParserExtra.parseDetectionResult_error_prefix (fun _ => Err "Unexpected token")
           "not json" _ H).
Defined.

Lemma parseParsed_reads_only_witness :
  let region := JObj [("start_line", JNum 10); ("end_line", JNum 20);
                      ("type", JStr "Switch Dispatcher"); ("confidence", JStr "high");
                      ("description", JStr "dispatcher loop")] in
  let region' := JObj [("description", JStr "dispatcher loop"); ("note", JStr "extra");
                       ("start_line", JNum 10); ("end_line", JNum 20);
                       ("type", JStr "Switch Dispatcher"); ("confidence", JStr "high")] in
  let v1 := JObj [("summary", JStr "one region"); ("regions", JArr [region])] in
  let v2 := JObj [("regions", JArr [region']); ("model", JStr "gpt");
                  ("summary", JStr "one region")] in
  ParserSpec.is_object_value v1 /\ ParserSpec.is_object_value v2 /\
  get v1 "summary" = get v2 "summary" /\
  get v1 "global_bytecode" = get v2 "global_bytecode" /\
  ParserExtra.regions_same (get v1 "regions") (get v2 "regions") /\
  Parser.parseParsed v1 = Parser.parseParsed v2.
Proof.
  intros region region' v1 v2.
  assert (H1 : ParserSpec.is_object_value v1) by exact I.
  assert (H2 : ParserSpec.is_object_value v2) by exact I.
  assert (H3 : get v1 "summary" = get v2 "summary") by reflexivity.
  assert (H4 : get v1 "global_bytecode" = get v2 "global_bytecode") by reflexivity.
  assert (H5 : ParserExtra.regions_same (get v1 "regions") (get v2 "regions")).
  { right. exists [region], [region']. split; [reflexivity|]. split; [reflexivity|].
    constructor; [|constructor]. right. split; [exact I|]. split; [exact I|].
    intros k Hk. repeat (destruct Hk as [<-|Hk]; [reflexivity|]). destruct Hk. }
  split; [exact H1|]. split; [exact H2|]. split; [exact H3|]. split; [exact H4|].
  split; [exact H5|].
  exact (ParserExtra.parseParsed_reads_only v1 v2 H1 H2 H3 H4 H5).
Defined.

Lemma parseDetectionResult_regions_in_order_witness :
  let region i := JObj [("start_line", JNum i); ("end_line", JNum (i + 5));
                        ("type", JStr "Switch Dispatcher"); ("confidence", JStr "high");
                        ("description", JStr "dispatcher loop")] in
  let v := JObj [("summary", JStr "two regions"); ("regions", JArr [region 40; region 10])] in
  exists res,
    Parser.parseDetectionResult (fun _ => Ok v) "response" = Ok res /\
    exists parsed items,
      (fun _ : string => @Ok json v) "response" = Ok parsed /\
      get parsed "regions" = Some (JArr items) /\
      length (DetectionResult.regions res) = length items /\
      forall i item, nth_error items i = Some item ->
        exists r, nth_error (DetectionResult.regions res) i = Some r /\
                  Parser.parseRegion i item = Ok r.
Proof.
  intros region v. eexists.
  assert (H : Parser.parseDetectionResult (fun _ => Ok v) "response" = Ok _) by reflexivity.
  split; [exact H|].
  exact (ParserExtra.parseDetectionResult_regions_in_order (fun _ => Ok v) "response" _ H).
Defined.

Lemma findJsvmpDispatcher_nonpositive_budget_witness :
  let beautify (_ : string) := @Ok (string * option unit) ("a" +++ String "010" "b", None) in
  let analyze (n : nat) (_ : string) := (S n, @Err string "request timed out") in
  exists lines,
    Some tt = Some tt /\ (fun _ : string => true) "app.js" = true /\
    FileFormat.formatEntireFile unit unit beautify (fun c _ => c) (fun _ => false)
      (fun _ => Ok tt) (fun _ _ => (None, None)) "app.js" 300 = Ok (lines, 2%nat) /\
    0 <= 0 /\
    Dispatcher.findJsvmpDispatcher unit (Some tt) nat (fun _ => Ok 0%nat) analyze
      (fun _ => Ok JNull) (fun _ => true) unit unit beautify (fun c _ => c) (fun _ => false)
      (fun _ => Ok tt) (fun _ _ => (None, None)) String.length (fun _ _ _ _ => "")
      "app.js" None (Some 0)
    = Dispatcher.JsvmpDetectionResult.mk false "app.js" 0 0 None None
        (Some "maxTokens must be a positive number") None.
Proof.
  intros beautify analyze. eexists.
  assert (H : FileFormat.formatEntireFile unit unit beautify (fun c _ => c) (fun _ => false)
      (fun _ => Ok tt) (fun _ _ => (None, None)) "app.js" 300 = Ok (_, 2%nat)) by reflexivity.
  split; [reflexivity|]. split; [reflexivity|]. split; [exact H|].
  split; [apply Qle_refl|].
  exact (DispatcherExtra.findJsvmpDispatcher_nonpositive_budget unit (Some tt) nat
           (fun _ => Ok 0%nat) analyze (fun _ => Ok JNull) (fun _ => true) unit unit beautify
           (fun c _ => c) (fun _ => false) (fun _ => Ok tt) (fun _ _ => (None, None))
           String.length (fun _ _ _ _ => "") "app.js" None 0 tt _ 2%nat eq_refl eq_refl H
           (Qle_refl 0)).
Defined.

Lemma findJsvmpDispatcher_batch_accounting_witness :
  let beautify (_ : string) := @Ok (string * option unit) ("a" +++ String "010" "b", None) in
  let analyze (n : nat) (_ : string) := (S n, @Err string "request timed out") in
  let find := Dispatcher.findJsvmpDispatcher unit (Some tt) nat (fun _ => Ok 0%nat) analyze
      (fun _ => Ok JNull) (fun _ => true) unit unit beautify (fun c _ => c) (fun _ => false)
      (fun _ => Ok tt) (fun _ _ => (None, None)) String.length (fun _ _ _ _ => "") in
  exists lines batches,
    FileFormat.formatEntireFile unit unit beautify (fun c _ => c) (fun _ => false)
      (fun _ => Ok tt) (fun _ _ => (None, None)) "app.js" 300 = Ok (lines, 2%nat) /\
    Batching.createBatches String.length lines 8000 = Ok batches /\
    let out := find "app.js" None None in
    Dispatcher.JsvmpDetectionResult.totalLines out = 2%nat /\
    Dispatcher.JsvmpDetectionResult.batchCount out = length batches /\
    ((Dispatcher.JsvmpDetectionResult.success out = false /\
      exists errors, length errors = length batches /\
        Dispatcher.JsvmpDetectionResult.partialErrors out = Some errors /\
        Dispatcher.JsvmpDetectionResult.error out
          = Some ("所有批次处理失败: " +++ join "; " errors)) \/
     (Dispatcher.JsvmpDetectionResult.success out = true /\
      Dispatcher.JsvmpDetectionResult.error out = None /\
      (exists merged, Dispatcher.JsvmpDetectionResult.result out = Some merged) /\
      (Dispatcher.JsvmpDetectionResult.partialErrors out = None \/
       exists errors, Dispatcher.JsvmpDetectionResult.partialErrors out = Some errors /\
         errors <> [] /\ (length errors < length batches)%nat))).
Proof.
  intros beautify analyze find. eexists. eexists.
  assert (H1 : FileFormat.formatEntireFile unit unit beautify (fun c _ => c) (fun _ => false)
      (fun _ => Ok tt) (fun _ _ => (None, None)) "app.js" 300 = Ok (_, 2%nat)) by reflexivity.
  match type of H1 with _ = Ok (?l, _) =>
    assert (H2 : Batching.createBatches String.length l 8000 = Ok _) by reflexivity end.
  split; [exact H1|]. split; [exact H2|].
  exact (DispatcherExtra.findJsvmpDispatcher_batch_accounting unit (Some tt) nat
           (fun _ => Ok 0%nat) analyze (fun _ => Ok JNull) (fun _ => true) unit unit beautify
           (fun c _ => c) (fun _ => false) (fun _ => Ok tt) (fun _ _ => (None, None))
           String.length (fun _ _ _ _ => "") "app.js" None None tt _ 2%nat _ 0%nat
           eq_refl eq_refl H1 H2 eq_refl).
Defined.

Lemma getLLMConfig_some_witness :
  let env k := if String.eqb k "ANTHROPIC_API_KEY" then Some "sk-ant"
               else if String.eqb k "LLM_PROVIDER" then Some "Anthropic"
               else if String.eqb k "LLM_MODEL" then Some ""
               else None in
  let lower s := if String.eqb s "Anthropic" then "anthropic" else s in
  let c := LLMConfig.mk LLMConfig.anthropic "sk-ant" "claude-haiku-4-5-20241022" None in
  LLMConfig.getLLMConfig env lower = Some c /\
  LLMConfigExtra.selected env lower (LLMConfig.provider c) /\
  env (LLMConfig.PROVIDER_ENV_KEYS_apiKey (LLMConfig.provider c)) = Some (LLMConfig.apiKey c) /\
  LLMConfig.apiKey c <> "" /\ LLMConfig.model c <> "".
Proof.
  intros env lower c.
  assert (H : LLMConfig.getLLMConfig env lower = Some c) by reflexivity.
  split; [exact H|]. exact (LLMConfigExtra.getLLMConfig_some env lower c H).
Defined.
